(** * react-history-state: the history manager of [src/utils/history.ts]

    A shallow embedding of [historyReducer] and [createHistoryManager],
    first as pure functions on [HistoryState] values, then over an explicit
    object store ([ByRef]) where records and arrays have an identity, so that
    "returns the same record" and "mutates an array in place" can be told
    apart from "returns an equal record". *)

From stdpp Require Import base numbers list option strings gmap.

Local Open Scope Z_scope.

(** ** JavaScript array primitives used by the reducer *)

Section js_array.
Context {A : Type}.

(** [Array.prototype.slice] resolves an integer argument [k] against the
    length: a negative [k] counts from the end and is cut at [0], any other
    is cut at [len]. *)
Definition relative_index (len k : Z) : Z :=
  if k <? 0 then Z.max (len + k) 0 else Z.min k len.

(** [l.slice(start, end)] *)
Definition slice (l : list A) (start end_ : Z) : list A :=
  let len := Z.of_nat (length l) in
  let k := relative_index len start in
  let final := relative_index len end_ in
  take (Z.to_nat (final - k)) (drop (Z.to_nat k) l).

(** [l.slice(start)]: [end] defaults to the length. *)
Definition slice_from (l : list A) (start : Z) : list A :=
  slice l start (Z.of_nat (length l)).

(** The contents of [l] after [l.push(x)]. *)
Definition push (l : list A) (x : A) : list A := l ++ [x].

(** [l[i]]: reading outside the array yields [undefined]. *)
Definition array_get (undefined : A) (l : list A) (i : Z) : A :=
  if i <? 0 then undefined else default undefined (l !! Z.to_nat i).
End js_array.

(** ** Types of [src/types/index.ts] *)

Record HistoryState (T : Type) : Type := mkHistoryState {
  history : list T;
  currentIndex : Z;
  initialState : T;
}.
Arguments mkHistoryState {T} _ _ _.
Arguments history {T} _.
Arguments currentIndex {T} _.
Arguments initialState {T} _.

Inductive HistoryAction (T : Type) : Type :=
  | SET_STATE (payload : T)
  | UNDO
  | REDO
  | RESET
  | CLEAR
  | GO_TO_INDEX (payload : Z).
Arguments SET_STATE {T} _.
Arguments UNDO {T}.
Arguments REDO {T}.
Arguments RESET {T}.
Arguments CLEAR {T}.
Arguments GO_TO_INDEX {T} _.

Record HistoryManagerOptions : Type := mkOptions {
  maxHistory : Z;
  enableRedo : bool;
}.

(** ** The reducer and the manager, on values *)

Section reducer.
Context {T : Type}.
(** The value JavaScript reads at an index that is not in the array. *)
Variable undefined : T.

Definition historyReducer (state : HistoryState T) (action : HistoryAction T)
    (options : HistoryManagerOptions) : HistoryState T :=
  match action with
  | SET_STATE payload =>
      let newHistory :=
        push (slice (history state) 0 (currentIndex state + 1)) payload in
      let trimmedHistory :=
        if Z.of_nat (length newHistory) >? maxHistory options
        then slice_from newHistory (- maxHistory options)
        else newHistory in
      {| history := trimmedHistory;
         currentIndex := Z.of_nat (length trimmedHistory) - 1;
         initialState := initialState state |}
  | UNDO =>
      if currentIndex state >? 0
      then {| history := history state;
              currentIndex := currentIndex state - 1;
              initialState := initialState state |}
      else state
  | REDO =>
      if enableRedo options
         && (currentIndex state <? Z.of_nat (length (history state)) - 1)
      then {| history := history state;
              currentIndex := currentIndex state + 1;
              initialState := initialState state |}
      else state
  | RESET =>
      {| history := [initialState state];
         currentIndex := 0;
         initialState := initialState state |}
  | CLEAR =>
      let currentState :=
        array_get undefined (history state) (currentIndex state) in
      {| history := [currentState];
         currentIndex := 0;
         initialState := initialState state |}
  | GO_TO_INDEX payload =>
      let targetIndex :=
        Z.max 0 (Z.min payload (Z.of_nat (length (history state)) - 1)) in
      {| history := history state;
         currentIndex := targetIndex;
         initialState := initialState state |}
  end.

(** The object returned by [createHistoryManager]: its methods close over
    [options] and the variable [currentState]. *)
Record HistoryManager : Type := mkManager {
  options : HistoryManagerOptions;
  currentState : HistoryState T;
}.

Definition createHistoryManager (initialState : T)
    (options : HistoryManagerOptions) : HistoryManager :=
  {| options := options;
     currentState := {| history := [initialState];
                        currentIndex := 0;
                        initialState := initialState |} |}.

(** A method assigns [currentState] and returns it. *)
Definition dispatch (action : HistoryAction T) (m : HistoryManager)
    : HistoryManager * HistoryState T :=
  let next := historyReducer (currentState m) action (options m) in
  ({| options := options m; currentState := next |}, next).

Definition getState (m : HistoryManager) : HistoryState T := currentState m.
Definition setState (value : T) := dispatch (SET_STATE value).
Definition undo := dispatch UNDO.
Definition redo := dispatch REDO.
Definition reset := dispatch RESET.
Definition clear := dispatch CLEAR.
Definition goToIndex (index : Z) := dispatch (GO_TO_INDEX index).

(** One call of one of the six operations. *)
Inductive Call : Type :=
  | CallSetState (value : T)
  | CallUndo
  | CallRedo
  | CallReset
  | CallClear
  | CallGoToIndex (index : Z).

Definition perform (c : Call) : HistoryManager -> HistoryManager * HistoryState T :=
  match c with
  | CallSetState value => setState value
  | CallUndo => undo
  | CallRedo => redo
  | CallReset => reset
  | CallClear => clear
  | CallGoToIndex index => goToIndex index
  end.

(** A sequence of calls, oldest first. *)
Definition run (calls : list Call) (m : HistoryManager) : HistoryManager :=
  foldl (fun m c => fst (perform c m)) m calls.

(** The states a manager built from [init] and [opts] can hold. *)
Definition reachable (opts : HistoryManagerOptions) (init : T)
    (s : HistoryState T) : Prop :=
  exists calls, getState (run calls (createHistoryManager init opts)) = s.

(** The invariants of the data model. *)
Definition cursor_in_range (s : HistoryState T) : Prop :=
  0 <= currentIndex s <= Z.of_nat (length (history s)) - 1.

Definition within_capacity (opts : HistoryManagerOptions)
    (s : HistoryState T) : Prop :=
  1 <= Z.of_nat (length (history s)) <= maxHistory opts.

(** The snapshot under the cursor. *)
Definition current (s : HistoryState T) : T :=
  array_get undefined (history s) (currentIndex s).
End reducer.

(** ** The operations as the specification words them *)

Section spec_words.
Context {T : Type}.

(** [clamp i lo hi]: below [lo] gives [lo], beyond [hi] gives [hi]. *)
Definition clamp (i lo hi : Z) : Z :=
  if i <? lo then lo else if hi <? i then hi else i.

(** The last [n] elements of [l], oldest first (all of [l] when it has
    fewer). *)
Definition last_n (n : Z) (l : list T) : list T :=
  drop (length l - Z.to_nat n)%nat l.

(** The four steps of [setState]: keep indices [0 .. currentIndex], append,
    keep the last [maxHistory] when there are more, put the cursor last. *)
Definition setState_steps (opts : HistoryManagerOptions)
    (s : HistoryState T) (value : T) : HistoryState T :=
  let truncated := take (Z.to_nat (currentIndex s + 1)) (history s) in
  let appended := truncated ++ [value] in
  let retained :=
    if maxHistory opts <? Z.of_nat (length appended)
    then last_n (maxHistory opts) appended
    else appended in
  {| history := retained;
     currentIndex := Z.of_nat (length retained) - 1;
     initialState := initialState s |}.

(** An operation keeps the entries of [s] when each of them is still in the
    history afterwards. *)
Definition retains_entries (s s' : HistoryState T) : Prop :=
  forall x, x ∈ history s -> x ∈ history s'.

(** The calls that have nothing to do: [undo] with the cursor on the
    first entry, [redo] when it is disabled or the cursor is on the last
    entry. *)
Definition nothing_to_do (opts : HistoryManagerOptions)
    (s : HistoryState T) (a : HistoryAction T) : bool :=
  match a with
  | UNDO => negb (currentIndex s >? 0)
  | REDO =>
      negb (enableRedo opts
            && (currentIndex s <? Z.of_nat (length (history s)) - 1))
  | _ => false
  end.
End spec_words.

(** ** The reducer and the manager, on an object store

    Arrays and state records live in a store and are named by their
    location. [slice], an array literal and an object literal allocate;
    [push] updates the array it is called on; the reducer returns the
    location of a record. *)

Module ByRef.
Abbreviation loc := positive (only parsing).

Inductive object (T : Type) : Type :=
  | Arr (elems : list T)
  | Rec (history : loc) (currentIndex : Z) (initialState : T).
Arguments Arr {T} _.
Arguments Rec {T} _ _ _.

Abbreviation heap T := (gmap positive (object T)) (only parsing).

(** Store passing; [None] stands for a dangling or ill-typed reference,
    which a JavaScript program cannot build. *)
Definition M (T A : Type) : Type := heap T -> option (A * heap T).

Definition ret {T A} (a : A) : M T A := fun h => Some (a, h).

Definition bind {T A B} (c : M T A) (k : A -> M T B) : M T B :=
  fun h => match c h with
           | Some (a, h') => k a h'
           | None => None
           end.

Notation "'let*' x ':=' c 'in' k" := (bind c (fun x => k))
  (at level 10, x name, c at level 100, k at level 200, only parsing).

Section store.
Context {T : Type}.
Variable undefined : T.

Definition alloc (o : object T) : M T loc :=
  fun h => let l := fresh (dom h) in Some (l, <[l:=o]> h).

Definition load_record (r : loc) : M T (loc * Z * T) :=
  fun h => match h !! r with
           | Some (Rec a ci ini) => Some ((a, ci, ini), h)
           | _ => None
           end.

Definition load_array (a : loc) : M T (list T) :=
  fun h => match h !! a with
           | Some (Arr l) => Some (l, h)
           | _ => None
           end.

(** [a.push(x)] writes into the array [a] itself. *)
Definition array_push (a : loc) (x : T) : M T unit :=
  fun h => match h !! a with
           | Some (Arr l) => Some (tt, <[a:=Arr (push l x)]> h)
           | _ => None
           end.

Definition array_length (a : loc) : M T Z :=
  let* l := load_array a in ret (Z.of_nat (length l)).

(** [a.slice(start, end)] and [a.slice(start)] build a new array. *)
Definition array_slice (a : loc) (start end_ : Z) : M T loc :=
  let* l := load_array a in alloc (Arr (slice l start end_)).

Definition array_slice_from (a : loc) (start : Z) : M T loc :=
  let* l := load_array a in alloc (Arr (slice_from l start)).

Definition array_read (a : loc) (i : Z) : M T T :=
  let* l := load_array a in ret (array_get undefined l i).

Definition historyReducer (state : loc) (action : HistoryAction T)
    (options : HistoryManagerOptions) : M T loc :=
  match action with
  | SET_STATE payload =>
      let* r := load_record state in
      let '(hist, ci, ini) := r in
      let* newHistory := array_slice hist 0 (ci + 1) in
      let* _ := array_push newHistory payload in
      let* len := array_length newHistory in
      let* trimmedHistory :=
        (if len >? maxHistory options
         then array_slice_from newHistory (- maxHistory options)
         else ret newHistory) in
      let* tlen := array_length trimmedHistory in
      alloc (Rec trimmedHistory (tlen - 1) ini)
  | UNDO =>
      let* r := load_record state in
      let '(hist, ci, ini) := r in
      if ci >? 0 then alloc (Rec hist (ci - 1) ini) else ret state
  | REDO =>
      let* r := load_record state in
      let '(hist, ci, ini) := r in
      let* len := array_length hist in
      if enableRedo options && (ci <? len - 1)
      then alloc (Rec hist (ci + 1) ini)
      else ret state
  | RESET =>
      let* r := load_record state in
      let '(hist, ci, ini) := r in
      let* fresh_history := alloc (Arr [ini]) in
      alloc (Rec fresh_history 0 ini)
  | CLEAR =>
      let* r := load_record state in
      let '(hist, ci, ini) := r in
      let* currentState := array_read hist ci in
      let* fresh_history := alloc (Arr [currentState]) in
      alloc (Rec fresh_history 0 ini)
  | GO_TO_INDEX payload =>
      let* r := load_record state in
      let '(hist, ci, ini) := r in
      let* len := array_length hist in
      let targetIndex := Z.max 0 (Z.min payload (len - 1)) in
      alloc (Rec hist targetIndex ini)
  end.

(** The manager holds the location of its current state record. *)
Record HistoryManager : Type := mkManager {
  options : HistoryManagerOptions;
  currentState : loc;
}.

Definition createHistoryManager (initialState : T)
    (options : HistoryManagerOptions) : M T HistoryManager :=
  let* hist := alloc (Arr [initialState]) in
  let* state := alloc (Rec hist 0 initialState) in
  ret {| options := options; currentState := state |}.

Definition dispatch (action : HistoryAction T) (m : HistoryManager)
    : M T (HistoryManager * loc) :=
  let* next := historyReducer (currentState m) action (options m) in
  ret ({| options := options m; currentState := next |}, next).

(** The value of the record at [state], when [state] is a record whose
    [history] field is an array. *)
Definition read (h : heap T) (state : loc) : option (HistoryState T) :=
  match h !! state with
  | Some (Rec a ci ini) =>
      match h !! a with
      | Some (Arr l) => Some (mkHistoryState l ci ini)
      | _ => None
      end
  | _ => None
  end.

(** The store a caller can observe a manager in: the one left by
    [createHistoryManager] followed by a sequence of operations. *)
Inductive reachable (opts : HistoryManagerOptions) (init : T)
    : heap T -> HistoryManager -> Prop :=
  | reachable_create h m :
      createHistoryManager init opts ∅ = Some (m, h) ->
      reachable opts init h m
  | reachable_dispatch h m action m' r h' :
      reachable opts init h m ->
      dispatch action m h = Some (m', r, h') ->
      reachable opts init h' m'.
End store.
End ByRef.

(** ** The hook of [src/hooks/useHistoryState.ts]

    One mounted instance of [useHistoryState]. What React and the timer API
    keep for it between renders are the fields of [HookInstance]: the
    memoised manager, the [useState] cell, the [useRef] cell, and the
    timeouts the hook has scheduled that have neither run nor been cleared.
    [setState] reads the [historyState] of the render that created it, so
    that state is an argument of the callback. The dependencies of the
    manager's [useMemo] ([initialState], [maxHistory], [enableRedo]) are
    taken not to change, so the manager is created once. The option
    [onValueChange] is left out: the hook never reads it. *)

Module StateHistoryOptions.
Record t : Type := mk {
  maxHistory : option Z;
  debounceMs : option Z;
  enableRedo : option bool;
}.
End StateHistoryOptions.

(** The data of the hook's result; its callbacks are the functions of
    [Hook] below. *)
Module StateHistoryResult.
Record t (T : Type) : Type := mk {
  state : T;
  canUndo : bool;
  canRedo : bool;
  history : list T;
}.
Arguments mk {T} _ _ _ _.
Arguments state {T} _.
Arguments canUndo {T} _.
Arguments canRedo {T} _.
Arguments history {T} _.
End StateHistoryResult.

Module Hook.
Section hook.
Context {T : Type}.
(** The value JavaScript reads at an index that is not in the array, and
    the test [x === null || x === undefined] of the [??] operator. *)
Variable undefined : T.
Variable nullish : T -> bool.

(** [a ?? b] *)
Definition nullish_coalesce (a b : T) : T := if nullish a then b else a.

(** The argument of the hook's [setState]: [T | ((prev: T) => T)], told
    apart by [typeof value === 'function']. *)
Inductive SetStateAction : Type :=
  | NewValue (value : T)
  | Updater (f : T -> T).

Record HookInstance : Type := mkHook {
  debounceMs : Z;
  historyManager : HistoryManager (T := T);
  historyState : HistoryState T;
  debounceRef : option positive;
  timeouts : gmap positive T;
  nextTimeout : positive;
}.

(** The first render: the options are checked, defaults filled in, the
    manager created and its state put in the [useState] cell. A thrown
    [Error] is its message. *)
Definition useHistoryState (initialState : T)
    (options : StateHistoryOptions.t) : string + HookInstance :=
  if match StateHistoryOptions.maxHistory options with
     | Some maxHistory => maxHistory <? 1
     | None => false
     end
  then inl "maxHistory must be a positive number"%string
  else if match StateHistoryOptions.debounceMs options with
          | Some debounceMs => debounceMs <? 0
          | None => false
          end
  then inl "debounceMs must be a non-negative number"%string
  else
    let maxHistory := default 50 (StateHistoryOptions.maxHistory options) in
    let debounceMs := default 0 (StateHistoryOptions.debounceMs options) in
    let enableRedo := default true (StateHistoryOptions.enableRedo options) in
    let historyManager :=
      createHistoryManager initialState (mkOptions maxHistory enableRedo) in
    inr {| debounceMs := debounceMs;
           historyManager := historyManager;
           historyState := getState historyManager;
           debounceRef := None;
           timeouts := ∅;
           nextTimeout := 1%positive |}.

(** [historyState.history[historyState.currentIndex] ??
    historyState.initialState], as in [setState] and in the result. *)
Definition resolved_state (historyState : HistoryState T) : T :=
  nullish_coalesce
    (array_get undefined (history historyState) (currentIndex historyState))
    (initialState historyState).

(** [const newState = historyManager.op(); setHistoryState(newState)] *)
Definition call_manager
    (op : HistoryManager -> HistoryManager * HistoryState T)
    (k : HookInstance) : HookInstance :=
  let '(manager, newState) := op (historyManager k) in
  {| debounceMs := debounceMs k;
     historyManager := manager;
     historyState := newState;
     debounceRef := debounceRef k;
     timeouts := timeouts k;
     nextTimeout := nextTimeout k |}.

(** [clearTimeout(id)] *)
Definition clearTimeout (id : positive) (k : HookInstance) : HookInstance :=
  {| debounceMs := debounceMs k;
     historyManager := historyManager k;
     historyState := historyState k;
     debounceRef := debounceRef k;
     timeouts := delete id (timeouts k);
     nextTimeout := nextTimeout k |}.

(** The timeout [id] runs, if it is still scheduled: its callback writes
    the value computed when it was scheduled. *)
Definition timeout_fires (id : positive) (k : HookInstance) : HookInstance :=
  match timeouts k !! id with
  | Some newValue =>
      call_manager (setState undefined newValue) (clearTimeout id k)
  | None => k
  end.

Definition setState (rendered : HistoryState T) (value : SetStateAction)
    (k : HookInstance) : HookInstance :=
  let currentValue := resolved_state rendered in
  let newValue :=
    match value with
    | Updater f => f currentValue
    | NewValue v => v
    end in
  if debounceMs k >? 0
  then
    let k1 := match debounceRef k with
              | Some id => clearTimeout id k
              | None => k
              end in
    let id := nextTimeout k1 in
    {| debounceMs := debounceMs k1;
       historyManager := historyManager k1;
       historyState := historyState k1;
       debounceRef := Some id;
       timeouts := <[id:=newValue]> (timeouts k1);
       nextTimeout := Pos.succ id |}
  else call_manager (setState undefined newValue) k.

Definition undo : HookInstance -> HookInstance := call_manager (undo undefined).
Definition redo : HookInstance -> HookInstance := call_manager (redo undefined).
Definition reset : HookInstance -> HookInstance := call_manager (reset undefined).
Definition clear : HookInstance -> HookInstance := call_manager (clear undefined).
Definition goToIndex (index : Z) : HookInstance -> HookInstance :=
  call_manager (goToIndex undefined index).

(** The cleanup of the [useEffect]. *)
Definition unmount (k : HookInstance) : HookInstance :=
  match debounceRef k with
  | Some id => clearTimeout id k
  | None => k
  end.


(** What can happen to a mounted hook. *)
Inductive Event : Type :=
  | SetStateCalled (rendered : HistoryState T) (value : SetStateAction)
  | UndoCalled
  | RedoCalled
  | ResetCalled
  | ClearCalled
  | GoToIndexCalled (index : Z)
  | TimeoutFired (id : positive)
  | Unmounted.

Definition handle (e : Event) : HookInstance -> HookInstance :=
  match e with
  | SetStateCalled rendered value => setState rendered value
  | UndoCalled => undo
  | RedoCalled => redo
  | ResetCalled => reset
  | ClearCalled => clear
  | GoToIndexCalled index => goToIndex index
  | TimeoutFired id => timeout_fires id
  | Unmounted => unmount
  end.

(** A sequence of events, oldest first. *)
Definition run_events (events : list Event) (k : HookInstance)
    : HookInstance :=
  foldl (fun k e => handle e k) k events.

(** The cells agree: the [useState] cell holds the manager's state, a
    state the manager can hold, and no timeout is scheduled but the one
    [debounceRef] names. *)
Definition settled (initialState : T) (k : HookInstance) : Prop :=
  historyState k = getState (historyManager k)
  /\ reachable undefined (options (historyManager k)) initialState
       (historyState k)
  /\ forall id v, timeouts k !! id = Some v -> debounceRef k = Some id.

(** The instances a hook mounted with [initialState] and [options] can be
    in. *)
Definition reachable (initialState : T) (options : StateHistoryOptions.t)
    (k : HookInstance) : Prop :=
  exists k0 events,
    useHistoryState initialState options = inr k0
    /\ run_events events k0 = k.
End hook.
End Hook.

(** ** Concrete snapshots for the examples *)

Inductive JsValue : Type :=
  | JsUndefined
  | JsString (s : string).

(** The test of [??] on these snapshots. *)
Definition js_nullish (v : JsValue) : bool :=
  match v with
  | JsUndefined => true
  | JsString _ => false
  end.

(** * Properties *)

(** Case analysis on the integer comparisons of a goal; branches whose
    comparison contradicts the context are closed. *)
Ltac case_ltb :=
  repeat match goal with
  | |- context [?a <? ?b] => destruct (Z.ltb_spec a b); try lia
  | |- context [?a >? ?b] => rewrite (Z.gtb_ltb a b)
  end.

(** ** Array primitives *)

Section js_array_facts.
Context {A : Type}.
Implicit Types l : list A.

Lemma slice_prefix l n : 0 <= n -> slice l 0 n = take (Z.to_nat n) l.
Proof.
  intros Hn. unfold slice, relative_index. case_ltb.
  replace (Z.to_nat (Z.min 0 (Z.of_nat (length l)))) with 0%nat by lia.
  rewrite drop_0.
  destruct (decide (n <= Z.of_nat (length l))) as [Hle|Hgt].
  - f_equal. lia.
  - rewrite !take_ge by lia. reflexivity.
Qed.

Lemma slice_whole l : slice l 0 (Z.of_nat (length l)) = l.
Proof. rewrite slice_prefix by lia. apply take_ge. lia. Qed.

Lemma slice_from_last_n l n : 0 < n -> slice_from l (- n) = last_n n l.
Proof.
  intros Hn. unfold slice_from, slice, relative_index, last_n. case_ltb.
  rewrite take_ge by (rewrite length_drop; lia).
  f_equal. lia.
Qed.

Lemma length_last_n l n :
  0 <= n -> Z.of_nat (length (last_n n l)) = Z.min n (Z.of_nat (length l)).
Proof. intros Hn. unfold last_n. rewrite length_drop. lia. Qed.

Lemma last_n_all l n : Z.of_nat (length l) <= n -> last_n n l = l.
Proof.
  intros Hn. unfold last_n.
  replace (length l - Z.to_nat n)%nat with 0%nat by lia. apply drop_0.
Qed.

(** Evicting after every append keeps what evicting once at the end keeps. *)
Lemma last_n_app_last_n l r n :
  last_n n (last_n n l ++ r) = last_n n (l ++ r).
Proof.
  unfold last_n.
  rewrite !drop_app, drop_drop, !length_app, !length_drop.
  f_equal; f_equal; lia.
Qed.

Lemma last_n_app_r l r n :
  0 <= n -> n <= Z.of_nat (length r) -> last_n n (l ++ r) = last_n n r.
Proof.
  intros Hn Hr. unfold last_n. rewrite length_app.
  replace (length l + length r - Z.to_nat n)%nat
    with (length l + (length r - Z.to_nat n))%nat by lia.
  apply drop_app_add.
Qed.

Lemma array_get_lookup (undefined : A) l i x :
  0 <= i -> l !! Z.to_nat i = Some x -> array_get undefined l i = x.
Proof.
  intros Hi Hx. unfold array_get. case_ltb. rewrite Hx. reflexivity.
Qed.

Lemma clamp_max_min i hi :
  0 <= hi -> Z.max 0 (Z.min i hi) = clamp i 0 hi.
Proof.
  intros Hhi. unfold clamp.
  destruct (Z.ltb_spec i 0), (Z.ltb_spec hi i); lia.
Qed.
End js_array_facts.

(** ** The reducer on values *)

Section reducer_facts.
Context {T : Type}.
Variable undefined : T.
Variable opts : HistoryManagerOptions.
Implicit Types (s : HistoryState T) (a : HistoryAction T) (v : T).

Local Abbreviation step s a := (historyReducer undefined s a opts).

Lemma setState_cursor s v :
  currentIndex (step s (SET_STATE v))
  = Z.of_nat (length (history (step s (SET_STATE v)))) - 1.
Proof. reflexivity. Qed.

Lemma setState_history s v :
  0 < maxHistory opts -> 0 <= currentIndex s + 1 ->
  history (step s (SET_STATE v))
  = last_n (maxHistory opts)
      (take (Z.to_nat (currentIndex s + 1)) (history s) ++ [v]).
Proof.
  intros Hm Hci. cbn [historyReducer history].
  rewrite slice_prefix by lia. unfold push.
  case_ltb.
  - apply slice_from_last_n. lia.
  - symmetry. apply last_n_all. lia.
Qed.

Lemma setState_as_specified s v :
  0 < maxHistory opts -> 0 <= currentIndex s ->
  step s (SET_STATE v) = setState_steps opts s v.
Proof.
  intros Hm Hci. unfold setState_steps. cbn [historyReducer].
  rewrite slice_prefix by lia. unfold push.
  case_ltb.
  - rewrite slice_from_last_n by lia. reflexivity.
  - reflexivity.
Qed.

(** After a write the cursor is on the last entry, whatever the state
    before. *)
Lemma setState_cursor_in_range s v :
  0 < maxHistory opts -> cursor_in_range (step s (SET_STATE v)).
Proof.
  intros Hm. unfold cursor_in_range. rewrite setState_cursor.
  cbn [historyReducer history]. unfold push.
  set (l := slice _ _ _ ++ [v]).
  assert (1 <= Z.of_nat (length l))
    by (subst l; rewrite length_app; cbn; lia).
  case_ltb.
  rewrite slice_from_last_n, length_last_n by lia. lia.
Qed.

Lemma setState_within_capacity s v :
  0 < maxHistory opts -> within_capacity opts (step s (SET_STATE v)).
Proof.
  intros Hm. unfold within_capacity.
  cbn [historyReducer history]. unfold push.
  set (l := slice _ _ _ ++ [v]).
  assert (1 <= Z.of_nat (length l))
    by (subst l; rewrite length_app; cbn; lia).
  case_ltb.
  rewrite slice_from_last_n, length_last_n by lia. lia.
Qed.

Lemma step_cursor_in_range s a :
  0 < maxHistory opts -> cursor_in_range s -> cursor_in_range (step s a).
Proof.
  intros Hm Hs. destruct a as [v| | | | |i].
  - apply setState_cursor_in_range, Hm.
  - unfold cursor_in_range in *. cbn [historyReducer].
    case_ltb; cbn; lia.
  - unfold cursor_in_range in *. cbn [historyReducer].
    destruct (enableRedo opts); cbn [andb]; [|lia].
    case_ltb; cbn; lia.
  - unfold cursor_in_range. cbn. lia.
  - unfold cursor_in_range. cbn. lia.
  - unfold cursor_in_range in *. cbn. lia.
Qed.

Lemma step_within_capacity s a :
  0 < maxHistory opts -> within_capacity opts s ->
  within_capacity opts (step s a).
Proof.
  intros Hm Hs. destruct a as [v| | | | |i].
  - apply setState_within_capacity, Hm.
  - unfold within_capacity in *. cbn [historyReducer].
    case_ltb; cbn; lia.
  - unfold within_capacity in *. cbn [historyReducer].
    destruct (_ && _); cbn; lia.
  - unfold within_capacity. cbn. lia.
  - unfold within_capacity. cbn. lia.
  - unfold within_capacity in *. cbn. lia.
Qed.

Lemma step_initialState s a : initialState (step s a) = initialState s.
Proof.
  destruct a; cbn [historyReducer]; try reflexivity.
  - destruct (_ >? _); reflexivity.
  - destruct (_ && _); reflexivity.
Qed.

Lemma undo_moves s :
  0 < currentIndex s ->
  step s UNDO
  = mkHistoryState (history s) (currentIndex s - 1) (initialState s).
Proof. intros Hci. cbn [historyReducer]. case_ltb. reflexivity. Qed.

Lemma undo_stays s : currentIndex s <= 0 -> step s UNDO = s.
Proof. intros Hci. cbn [historyReducer]. case_ltb. reflexivity. Qed.

Lemma redo_moves s :
  enableRedo opts = true ->
  currentIndex s < Z.of_nat (length (history s)) - 1 ->
  step s REDO
  = mkHistoryState (history s) (currentIndex s + 1) (initialState s).
Proof.
  intros Hredo Hci. cbn [historyReducer]. rewrite Hredo. cbn [andb].
  case_ltb. reflexivity.
Qed.

Lemma redo_stays s :
  enableRedo opts = false
  \/ Z.of_nat (length (history s)) - 1 <= currentIndex s ->
  step s REDO = s.
Proof.
  intros [Hoff|Hci]; cbn [historyReducer].
  - rewrite Hoff. reflexivity.
  - destruct (enableRedo opts); cbn [andb]; [|reflexivity].
    case_ltb. reflexivity.
Qed.

(** *** The manager *)

Lemma perform_dispatch (c : Call) (m : HistoryManager) :
  exists a, perform undefined c m = dispatch undefined a m.
Proof. destruct c; eexists; reflexivity. Qed.

Lemma run_snoc calls c (m : HistoryManager) :
  run undefined (calls ++ [c]) m
  = fst (perform undefined c (run undefined calls m)).
Proof. unfold run. rewrite foldl_app. reflexivity. Qed.

Lemma run_options calls (m : HistoryManager) :
  options (run undefined calls m) = options m.
Proof.
  induction calls as [|c calls IH] using rev_ind; [reflexivity|].
  rewrite run_snoc. destruct (perform_dispatch c (run undefined calls m)) as [a ->].
  cbn. exact IH.
Qed.

(** What holds of the first state and is kept by every step of the reducer
    holds of every state the manager can hold. *)
Lemma reachable_induction (init : T) (P : HistoryState T -> Prop) :
  P (mkHistoryState [init] 0 init) ->
  (forall s a, P s -> P (step s a)) ->
  forall s, reachable undefined opts init s -> P s.
Proof.
  intros Hinit Hstep s [calls <-].
  induction calls as [|c calls IH] using rev_ind; [exact Hinit|].
  rewrite run_snoc.
  destruct (perform_dispatch c (run undefined calls (createHistoryManager init opts)))
    as [a ->].
  cbn [dispatch fst getState currentState].
  rewrite run_options. cbn [createHistoryManager options].
  apply Hstep, IH.
Qed.

Lemma reachable_step (init : T) s a :
  reachable undefined opts init s -> reachable undefined opts init (step s a).
Proof.
  intros [calls <-].
  assert (exists c, forall m, perform undefined c m = dispatch undefined a m)
    as [c Hc].
  { destruct a as [v| | | | |i];
      [exists (CallSetState v)|exists CallUndo|exists CallRedo
      |exists CallReset|exists CallClear|exists (CallGoToIndex i)];
      reflexivity. }
  exists (calls ++ [c]). rewrite run_snoc, Hc.
  cbn [dispatch fst getState currentState].
  rewrite run_options. reflexivity.
Qed.

Lemma reachable_cursor_in_range (init : T) s :
  0 < maxHistory opts -> reachable undefined opts init s -> cursor_in_range s.
Proof.
  intros Hm. apply reachable_induction.
  - unfold cursor_in_range. cbn. lia.
  - intros. apply step_cursor_in_range; assumption.
Qed.

Lemma reachable_within_capacity (init : T) s :
  0 < maxHistory opts -> reachable undefined opts init s ->
  within_capacity opts s.
Proof.
  intros Hm. apply reachable_induction.
  - unfold within_capacity. cbn. lia.
  - intros. apply step_within_capacity; assumption.
Qed.

Lemma reachable_initialState (init : T) s :
  reachable undefined opts init s -> initialState s = init.
Proof.
  revert s.
  apply (reachable_induction init (fun s => initialState s = init));
    [reflexivity|].
  intros s a <-. apply step_initialState.
Qed.

Lemma cursor_in_range_lookup s :
  cursor_in_range s ->
  history s !! Z.to_nat (currentIndex s) = Some (current undefined s).
Proof.
  intros [Hlo Hhi].
  destruct (lookup_lt_is_Some_2 (history s) (Z.to_nat (currentIndex s)))
    as [x Hx]; [lia|].
  rewrite Hx. f_equal. symmetry. apply array_get_lookup; assumption.
Qed.
End reducer_facts.

(** ** Consecutive writes *)

Section writes.
Context {T : Type}.
Variable undefined : T.
Variable opts : HistoryManagerOptions.
Hypothesis positive_capacity : 0 < maxHistory opts.

Lemma setState_history_slice (s : HistoryState T) (v : T) :
  history (historyReducer undefined s (SET_STATE v) opts)
  = last_n (maxHistory opts)
      (slice (history s) 0 (currentIndex s + 1) ++ [v]).
Proof.
  cbn [historyReducer history]. unfold push. case_ltb.
  - apply slice_from_last_n. lia.
  - symmetry. apply last_n_all. lia.
Qed.

(** A run of writes leaves what one eviction at the end would leave of the
    entries up to the cursor followed by the written values. *)
Lemma writes_history (s : HistoryState T) (vs : list T) (v : T) :
  let s' := getState (run undefined (CallSetState <$> (vs ++ [v]))
                        (mkManager opts s)) in
  history s'
  = last_n (maxHistory opts)
      (slice (history s) 0 (currentIndex s + 1) ++ vs ++ [v])
  /\ currentIndex s' = Z.of_nat (length (history s')) - 1.
Proof.
  revert v. induction vs as [|u vs IH] using rev_ind; intros v.
  - cbn. split; [apply setState_history_slice|reflexivity].
  - destruct (IH u) as [Hh Hc]. clear IH.
    cbv zeta in *. rewrite fmap_app.
    change (CallSetState <$> [v]) with [CallSetState v].
    rewrite run_snoc. cbn [perform].
    unfold setState, dispatch, getState in *. cbn [fst currentState].
    rewrite run_options. cbn [options].
    set (s1 := currentState (run undefined (CallSetState <$> vs ++ [u])
                               (mkManager opts s))) in *.
    split; [|apply setState_cursor].
    rewrite setState_history_slice.
    replace (currentIndex s1 + 1) with (Z.of_nat (length (history s1)))
      by lia.
    rewrite slice_whole, Hh, last_n_app_last_n.
    rewrite <- !app_assoc. reflexivity.
Qed.
End writes.

(** C1. Whatever sequence of [setState], [undo], [redo], [reset], [clear]
    and [goToIndex] calls a manager created with [maxHistory >= 1] has
    served, the state it holds has between [1] and [maxHistory] entries and
    a cursor between [0] and the last index. *)
Theorem invariant_of_reachable_states {T : Type} (undefined init : T)
    (opts : HistoryManagerOptions) (calls : list Call) :
  1 <= maxHistory opts ->
  let s := getState (run undefined calls (createHistoryManager init opts)) in
  1 <= Z.of_nat (length (history s)) <= maxHistory opts
  /\ 0 <= currentIndex s <= Z.of_nat (length (history s)) - 1.
Proof.
  intros Hm s.
  assert (Hr : reachable undefined opts init s) by (exists calls; reflexivity).
  split.
  - apply (reachable_within_capacity undefined opts init); [lia|exact Hr].
  - apply (reachable_cursor_in_range undefined opts init); [lia|exact Hr].
Qed.

Lemma invariant_of_reachable_states_witness :
  let s := getState (run JsUndefined
                       [CallSetState (JsString "a"); CallSetState (JsString "b");
                        CallUndo; CallGoToIndex 7; CallSetState (JsString "c");
                        CallGoToIndex (-3); CallRedo; CallClear;
                        CallSetState (JsString "d"); CallReset]
                       (createHistoryManager (JsString "initial")
                          (mkOptions 2 true))) in
  1 <= Z.of_nat (length (history s)) <= 2
  /\ 0 <= currentIndex s <= Z.of_nat (length (history s)) - 1.
Proof.
  apply (invariant_of_reachable_states JsUndefined (JsString "initial")
           (mkOptions 2 true)).
  cbn. lia.
Defined.

(** C2. With [maxHistory >= 1], [setState] on a state whose cursor is not
    negative is the four steps of the specification (keep the entries up to
    the cursor, append, keep the last [maxHistory], cursor on the last
    entry); and more than [maxHistory] consecutive [setState] calls, from any
    state, leave exactly the last [maxHistory] written values, in the order
    written, with the cursor on the newest. *)
Theorem setState_sliding_window {T : Type} (undefined : T)
    (opts : HistoryManagerOptions) :
  1 <= maxHistory opts ->
  (forall (s : HistoryState T) (v : T),
      0 <= currentIndex s ->
      historyReducer undefined s (SET_STATE v) opts = setState_steps opts s v)
  /\ (forall (s : HistoryState T) (vs : list T),
      maxHistory opts < Z.of_nat (length vs) ->
      let s' := getState (run undefined (CallSetState <$> vs)
                            (mkManager opts s)) in
      history s' = last_n (maxHistory opts) vs
      /\ Z.of_nat (length (history s')) = maxHistory opts
      /\ currentIndex s' = maxHistory opts - 1).
Proof.
  intros Hm. split.
  - intros s v Hci. apply setState_as_specified; lia.
  - intros s vs Hlen s'.
    destruct vs as [|v vs _] using rev_ind; [cbn in Hlen; lia|].
    destruct (writes_history undefined opts ltac:(lia) s vs v) as [Hh Hc].
    fold s' in Hh, Hc.
    assert (Hlast : history s' = last_n (maxHistory opts) (vs ++ [v])).
    { rewrite Hh. apply last_n_app_r; lia. }
    assert (Hn : Z.of_nat (length (history s')) = maxHistory opts).
    { rewrite Hlast, length_last_n by lia. lia. }
    repeat split; [exact Hlast|exact Hn|lia].
Qed.

Lemma setState_sliding_window_witness :
  let opts := mkOptions 3 true in
  let s := mkHistoryState [JsString "initial"; JsString "x"] 0
             (JsString "initial") in
  let written := [JsString "a"; JsString "b"; JsString "c"; JsString "d"] in
  historyReducer JsUndefined s (SET_STATE (JsString "a")) opts
  = mkHistoryState [JsString "initial"; JsString "a"] 1 (JsString "initial")
  /\ history (getState (run JsUndefined (CallSetState <$> written)
                          (mkManager opts s)))
     = [JsString "b"; JsString "c"; JsString "d"].
Proof.
  intros opts s written.
  destruct (setState_sliding_window JsUndefined opts ltac:(cbn; lia))
    as [Hstep Hrun].
  split.
  - rewrite Hstep by (cbn; lia). reflexivity.
  - apply (Hrun s written). cbn. lia.
Defined.

(** C3. On a state whose cursor is in range, when [setState v] evicts
    nothing ([currentIndex + 2 <= maxHistory]), an [undo] right after it
    leaves the cursor on the snapshot that was current before the write. *)
Theorem setState_undo_restores_current {T : Type} (undefined : T)
    (opts : HistoryManagerOptions) (s : HistoryState T) (v : T) :
  cursor_in_range s ->
  currentIndex s + 2 <= maxHistory opts ->
  let s' := historyReducer undefined
              (historyReducer undefined s (SET_STATE v) opts) UNDO opts in
  history s !! Z.to_nat (currentIndex s) = Some (current undefined s)
  /\ history s' !! Z.to_nat (currentIndex s') = Some (current undefined s)
  /\ current undefined s' = current undefined s.
Proof.
  intros Hs Hm s'.
  pose proof (cursor_in_range_lookup undefined s Hs) as Hcur.
  destruct Hs as [Hlo Hhi].
  set (s1 := historyReducer undefined s (SET_STATE v) opts) in *.
  assert (Hh : history s1
               = take (Z.to_nat (currentIndex s + 1)) (history s) ++ [v]).
  { unfold s1. rewrite setState_history by lia. apply last_n_all.
    rewrite length_app, length_take. cbn. lia. }
  assert (Hc : currentIndex s1 = currentIndex s + 1).
  { transitivity (Z.of_nat (length (history s1)) - 1); [reflexivity|].
    rewrite Hh, length_app, length_take. cbn. lia. }
  clearbody s1.
  assert (Hs' : history s' = history s1
                /\ currentIndex s' = currentIndex s).
  { subst s'. cbn [historyReducer]. case_ltb. cbn. split; [reflexivity|lia]. }
  rewrite Hh in Hs'.
  destruct Hs' as [Hh' Hc'].
  assert (Hlook : history s' !! Z.to_nat (currentIndex s')
                  = Some (current undefined s)).
  { rewrite Hh', Hc'.
    rewrite lookup_app_l by (rewrite length_take; lia).
    rewrite lookup_take_lt by lia. exact Hcur. }
  repeat split; [exact Hcur|exact Hlook|].
  unfold current at 1. apply array_get_lookup; [lia|exact Hlook].
Qed.

Lemma setState_undo_restores_current_witness :
  let s := mkHistoryState [JsString "initial"; JsString "x"; JsString "y"] 1
             (JsString "initial") in
  let s' := historyReducer JsUndefined
              (historyReducer JsUndefined s (SET_STATE (JsString "z"))
                 (mkOptions 3 true)) UNDO (mkOptions 3 true) in
  history s !! Z.to_nat (currentIndex s) = Some (JsString "x")
  /\ history s' !! Z.to_nat (currentIndex s') = Some (JsString "x")
  /\ current JsUndefined s' = JsString "x".
Proof.
  apply (setState_undo_restores_current JsUndefined (mkOptions 3 true)
           (mkHistoryState [JsString "initial"; JsString "x"; JsString "y"] 1
              (JsString "initial")) (JsString "z")).
  - unfold cursor_in_range. cbn. lia.
  - cbn. lia.
Defined.

(** C6. [redo] moves the cursor forward by one exactly when [enableRedo] is
    set and the cursor is before the last entry, and gives the state back
    unchanged otherwise: always so when [enableRedo] is off, and again and
    again once the cursor is on the last entry. *)
Theorem redo_characterisation {T : Type} (undefined : T)
    (opts : HistoryManagerOptions) (s : HistoryState T) :
  let can_redo := enableRedo opts = true
                  /\ currentIndex s < Z.of_nat (length (history s)) - 1 in
  let s' := historyReducer undefined s REDO opts in
  (can_redo -> s' = mkHistoryState (history s) (currentIndex s + 1)
                      (initialState s))
  /\ (~ can_redo -> s' = s)
  /\ (currentIndex s' = currentIndex s + 1 <-> can_redo)
  /\ (enableRedo opts = false -> s' = s)
  /\ (currentIndex s = Z.of_nat (length (history s)) - 1 ->
      s' = s /\ historyReducer undefined s' REDO opts = s').
Proof.
  intros can_redo s'. subst can_redo s'. cbn [historyReducer].
  destruct (enableRedo opts); cbn [andb]; case_ltb.
  all: repeat split; try tauto; try discriminate; try lia.
  all: intros [? ?]; discriminate.
Qed.

Lemma redo_characterisation_witness :
  let future := mkHistoryState [JsString "initial"; JsString "a"] 0
                  (JsString "initial") in
  historyReducer JsUndefined future REDO (mkOptions 10 true)
  = mkHistoryState [JsString "initial"; JsString "a"] 1 (JsString "initial")
  /\ historyReducer JsUndefined future REDO (mkOptions 10 false) = future.
Proof.
  intros future. split.
  - destruct (redo_characterisation JsUndefined (mkOptions 10 true) future)
      as (Hmove & _).
    apply Hmove. split; [reflexivity|cbn; lia].
  - destruct (redo_characterisation JsUndefined (mkOptions 10 false) future)
      as (_ & _ & _ & Hoff & _).
    apply Hoff. reflexivity.
Defined.

(** C7. On a history that is not empty, [goToIndex i] puts the cursor at
    [clamp i 0 (length - 1)] for every integer [i] and changes neither the
    history nor the initial state. *)
Theorem goToIndex_clamps {T : Type} (undefined : T)
    (opts : HistoryManagerOptions) (s : HistoryState T) (i : Z) :
  1 <= Z.of_nat (length (history s)) ->
  let s' := historyReducer undefined s (GO_TO_INDEX i) opts in
  currentIndex s' = clamp i 0 (Z.of_nat (length (history s)) - 1)
  /\ history s' = history s
  /\ initialState s' = initialState s.
Proof.
  intros Hlen s'. subst s'. cbn [historyReducer currentIndex history initialState].
  repeat split. apply clamp_max_min. lia.
Qed.

Lemma goToIndex_clamps_witness :
  let s := mkHistoryState [JsString "initial"; JsString "a"; JsString "b"] 1
             (JsString "initial") in
  currentIndex (historyReducer JsUndefined s (GO_TO_INDEX (-1))
                  (mkOptions 50 true)) = 0
  /\ currentIndex (historyReducer JsUndefined s (GO_TO_INDEX 1000)
                     (mkOptions 50 true)) = 2.
Proof.
  intros s. split.
  - apply (goToIndex_clamps JsUndefined (mkOptions 50 true) s (-1)). cbn. lia.
  - apply (goToIndex_clamps JsUndefined (mkOptions 50 true) s 1000). cbn. lia.
Defined.

(** C8. [clear] on a state a manager with [maxHistory >= 1] can hold leaves
    one entry, the snapshot that was under the cursor, and the cursor at
    [0]. *)
Theorem clear_keeps_current {T : Type} (undefined init : T)
    (opts : HistoryManagerOptions) (s : HistoryState T) :
  1 <= maxHistory opts ->
  reachable undefined opts init s ->
  let s' := historyReducer undefined s CLEAR opts in
  exists x,
    0 <= currentIndex s
    /\ history s !! Z.to_nat (currentIndex s) = Some x
    /\ history s' = [x]
    /\ length (history s') = 1%nat
    /\ currentIndex s' = 0.
Proof.
  intros Hm Hr s'.
  assert (Hs : cursor_in_range s)
    by (apply (reachable_cursor_in_range undefined opts init); [lia|exact Hr]).
  exists (current undefined s).
  split; [apply Hs|].
  split; [apply cursor_in_range_lookup, Hs|].
  repeat split.
Qed.

Lemma clear_keeps_current_witness :
  let opts := mkOptions 50 true in
  let s := getState (run JsUndefined
                       [CallSetState (JsString "x"); CallSetState (JsString "y");
                        CallUndo]
                       (createHistoryManager (JsString "initial") opts)) in
  history s = [JsString "initial"; JsString "x"; JsString "y"]
  /\ currentIndex s = 1
  /\ history (historyReducer JsUndefined s CLEAR opts) = [JsString "x"].
Proof.
  intros opts s.
  destruct (clear_keeps_current JsUndefined (JsString "initial") opts s)
    as (x & _ & Hx & Hh & _).
  - cbn. lia.
  - eexists. reflexivity.
  - split; [reflexivity|]. split; [reflexivity|].
    rewrite Hh. vm_compute in Hx. congruence.
Defined.

(** C9. [reset] on a state a manager built from [init] can hold leaves the
    history [[init]] and the cursor at [0], also when [init] is no longer
    among the entries. *)
Theorem reset_restores_initial {T : Type} (undefined init : T)
    (opts : HistoryManagerOptions) (s : HistoryState T) :
  reachable undefined opts init s ->
  let s' := historyReducer undefined s RESET opts in
  history s' = [init] /\ currentIndex s' = 0.
Proof.
  intros Hr s'. subst s'. cbn [historyReducer history currentIndex].
  rewrite (reachable_initialState undefined opts init s Hr). split; reflexivity.
Qed.

Lemma reset_restores_initial_witness :
  let opts := mkOptions 2 true in
  let s := getState (run JsUndefined
                       [CallSetState (JsString "a"); CallSetState (JsString "b");
                        CallSetState (JsString "c")]
                       (createHistoryManager (JsString "initial") opts)) in
  history s = [JsString "b"; JsString "c"]
  /\ history (historyReducer JsUndefined s RESET opts) = [JsString "initial"]
  /\ currentIndex (historyReducer JsUndefined s RESET opts) = 0.
Proof.
  intros opts s. split; [reflexivity|].
  apply (reset_restores_initial JsUndefined (JsString "initial") opts s).
  eexists. reflexivity.
Defined.

(** C10. With [enableRedo] set, on the states a manager with
    [maxHistory >= 1] can hold, [redo] undoes [undo] when the cursor is past
    the first entry, and [undo] undoes [redo] when the cursor is before the
    last. *)
Theorem undo_redo_inverse {T : Type} (undefined init : T)
    (opts : HistoryManagerOptions) (s : HistoryState T) :
  1 <= maxHistory opts ->
  enableRedo opts = true ->
  reachable undefined opts init s ->
  (0 < currentIndex s ->
   historyReducer undefined (historyReducer undefined s UNDO opts) REDO opts
   = s)
  /\ (currentIndex s < Z.of_nat (length (history s)) - 1 ->
      historyReducer undefined (historyReducer undefined s REDO opts) UNDO opts
      = s).
Proof.
  intros Hm Hredo Hr.
  assert (Hs : cursor_in_range s)
    by (apply (reachable_cursor_in_range undefined opts init); [lia|exact Hr]).
  destruct Hs as [Hlo Hhi]. destruct s as [h ci ini].
  cbn [currentIndex history] in *.
  split; intros Hci.
  - rewrite undo_moves by exact Hci.
    rewrite redo_moves by (cbn; first [exact Hredo|lia]).
    cbn. f_equal. lia.
  - rewrite redo_moves by (cbn; first [exact Hredo|lia]).
    rewrite undo_moves by (cbn; lia).
    cbn. f_equal. lia.
Qed.

Lemma undo_redo_inverse_witness :
  let opts := mkOptions 50 true in
  let s := getState (run JsUndefined
                       [CallSetState (JsString "x"); CallSetState (JsString "y");
                        CallUndo]
                       (createHistoryManager (JsString "initial") opts)) in
  currentIndex s = 1
  /\ historyReducer JsUndefined (historyReducer JsUndefined s UNDO opts)
       REDO opts = s
  /\ historyReducer JsUndefined (historyReducer JsUndefined s REDO opts)
       UNDO opts = s.
Proof.
  intros opts s.
  destruct (undo_redo_inverse JsUndefined (JsString "initial") opts s)
    as [Hur Hru].
  - cbn. lia.
  - reflexivity.
  - eexists. reflexivity.
  - split; [reflexivity|].
    split; [apply Hur|apply Hru]; vm_compute; reflexivity.
Defined.

(** C4, as the code has it. On the states a manager with [maxHistory >= 1]
    can hold, [undo], [redo] and [goToIndex] leave the history as it is;
    [clear] leaves only the snapshot under the cursor and [reset] only the
    initial state, so both drop every other entry, before and after the
    cursor. *)
Theorem history_after_each_operation {T : Type} (undefined init : T)
    (opts : HistoryManagerOptions) (s : HistoryState T) :
  1 <= maxHistory opts ->
  reachable undefined opts init s ->
  history (historyReducer undefined s UNDO opts) = history s
  /\ history (historyReducer undefined s REDO opts) = history s
  /\ (forall i, history (historyReducer undefined s (GO_TO_INDEX i) opts)
                = history s)
  /\ history s !! Z.to_nat (currentIndex s) = Some (current undefined s)
  /\ history (historyReducer undefined s CLEAR opts) = [current undefined s]
  /\ history (historyReducer undefined s RESET opts) = [init].
Proof.
  intros Hm Hr.
  assert (Hs : cursor_in_range s)
    by (apply (reachable_cursor_in_range undefined opts init); [lia|exact Hr]).
  repeat split.
  - cbn [historyReducer]. destruct (_ >? _); reflexivity.
  - cbn [historyReducer]. destruct (_ && _); reflexivity.
  - apply cursor_in_range_lookup, Hs.
  - cbn [historyReducer history].
    rewrite (reachable_initialState undefined opts init s Hr). reflexivity.
Qed.

Lemma history_after_each_operation_witness :
  let opts := mkOptions 50 true in
  let s := getState (run JsUndefined
                       [CallSetState (JsString "x"); CallSetState (JsString "y");
                        CallUndo]
                       (createHistoryManager (JsString "initial") opts)) in
  history (historyReducer JsUndefined s UNDO opts) = history s
  /\ history (historyReducer JsUndefined s REDO opts) = history s
  /\ (forall i, history (historyReducer JsUndefined s (GO_TO_INDEX i) opts)
                = history s)
  /\ history s !! Z.to_nat (currentIndex s) = Some (current JsUndefined s)
  /\ history (historyReducer JsUndefined s CLEAR opts) = [current JsUndefined s]
  /\ history (historyReducer JsUndefined s RESET opts) = [JsString "initial"].
Proof.
  intros opts s.
  apply (history_after_each_operation JsUndefined (JsString "initial") opts s).
  - cbn. lia.
  - eexists. reflexivity.
Defined.

(** C4, as stated, fails: after [setState x], [setState y], [undo] the
    history is [[initial; x; y]] with the cursor on [x]; [clear] leaves
    [[x]] and [reset] leaves [[initial]], so the entry [y] after the cursor
    is gone in both and the oldest entry is gone after [clear]. *)
Lemma clear_and_reset_discard_entries :
  let opts := mkOptions 50 true in
  let init := JsString "initial" in
  let s := getState (run JsUndefined
                       [CallSetState (JsString "x"); CallSetState (JsString "y");
                        CallUndo]
                       (createHistoryManager init opts)) in
  reachable JsUndefined opts init s
  /\ history s = [JsString "initial"; JsString "x"; JsString "y"]
  /\ currentIndex s = 1
  /\ history (historyReducer JsUndefined s CLEAR opts) = [JsString "x"]
  /\ history (historyReducer JsUndefined s RESET opts) = [JsString "initial"]
  /\ ~ retains_entries s (historyReducer JsUndefined s CLEAR opts)
  /\ ~ retains_entries s (historyReducer JsUndefined s RESET opts)
  /\ ~ (forall (s0 : HistoryState JsValue) (a : HistoryAction JsValue),
          reachable JsUndefined opts init s0 ->
          (forall v, a <> SET_STATE v) ->
          retains_entries s0 (historyReducer JsUndefined s0 a opts)).
Proof.
  intros opts init s.
  assert (Hr : reachable JsUndefined opts init s) by (eexists; reflexivity).
  assert (Hclear : ~ retains_entries s (historyReducer JsUndefined s CLEAR opts)).
  { intros Hkeep. specialize (Hkeep (JsString "y")).
    assert (Hin : JsString "y" ∈ [JsString "x"]).
    { apply Hkeep. vm_compute. apply list_elem_of_In. cbn. tauto. }
    apply list_elem_of_In in Hin. cbn in Hin.
    destruct Hin as [Heq|[]]. discriminate Heq. }
  assert (Hreset : ~ retains_entries s (historyReducer JsUndefined s RESET opts)).
  { intros Hkeep. specialize (Hkeep (JsString "y")).
    assert (Hin : JsString "y" ∈ [JsString "initial"]).
    { apply Hkeep. vm_compute. apply list_elem_of_In. cbn. tauto. }
    apply list_elem_of_In in Hin. cbn in Hin.
    destruct Hin as [Heq|[]]. discriminate Heq. }
  repeat split; try reflexivity; try assumption.
  intros Hall. apply Hclear, Hall; [exact Hr|discriminate].
Qed.

(** ** The reducer on the object store *)

Section byref_facts.
Context {T : Type}.
Variable undefined : T.
Implicit Types (h : gmap positive (ByRef.object T)) (s : HistoryState T).

Lemma alloc_fresh_loc (o : ByRef.object T) h :
  exists l, ByRef.alloc o h = Some (l, <[l:=o]> h) /\ h !! l = None.
Proof.
  eexists. split; [reflexivity|]. apply not_elem_of_dom, is_fresh.
Qed.

Lemma read_Some h state s :
  ByRef.read h state = Some s <->
  exists a, h !! state = Some (ByRef.Rec a (currentIndex s) (initialState s))
            /\ h !! a = Some (ByRef.Arr (history s)).
Proof.
  unfold ByRef.read. split.
  - destruct (h !! state) as [[|a ci ini]|] eqn:Hst; try discriminate.
    destruct (h !! a) as [[l|]|] eqn:Ha; try discriminate.
    intros [= <-]. exists a. split; [reflexivity|exact Ha].
  - intros (a & -> & ->). destruct s; reflexivity.
Qed.

Lemma read_new_record h l a elems ci ini :
  h !! l = None -> h !! a = Some (ByRef.Arr elems) ->
  ByRef.read (<[l:=ByRef.Rec a ci ini]> h) l
  = Some (mkHistoryState elems ci ini).
Proof.
  intros Hl Ha. unfold ByRef.read.
  rewrite lookup_insert_eq, lookup_insert_ne by congruence.
  rewrite Ha. reflexivity.
Qed.

(** What one call of the reducer does to the store: it returns a record
    whose value is the value the reducer on values computes; every object
    of the store before the call is in the store after it, unchanged; and
    the record returned is the input record with the store untouched when
    there is [nothing_to_do], a record that was not in the store
    otherwise. *)
Lemma historyReducer_store h state s (a : HistoryAction T)
    (opts : HistoryManagerOptions) :
  ByRef.read h state = Some s ->
  exists state' h',
    ByRef.historyReducer undefined state a opts h = Some (state', h')
    /\ ByRef.read h' state' = Some (historyReducer undefined s a opts)
    /\ h ⊆ h'
    /\ (if nothing_to_do opts s a
        then state' = state /\ h' = h
        else h !! state' = None).
Proof.
  intros Hread. pose proof Hread as Hread'.
  apply read_Some in Hread' as (arr & Hst & Harr).
  destruct s as [elems ci ini]. cbn [history currentIndex initialState] in *.
  unfold ByRef.historyReducer, ByRef.bind, ByRef.load_record,
    ByRef.array_length, ByRef.array_read, ByRef.array_slice,
    ByRef.array_slice_from, ByRef.array_push, ByRef.load_array, ByRef.bind,
    ByRef.ret.
  destruct a as [v| | | | |i]; rewrite Hst; cbn [nothing_to_do historyReducer
    history currentIndex initialState].
  - (* SET_STATE *)
    rewrite Harr.
    destruct (alloc_fresh_loc (ByRef.Arr (slice elems 0 (ci + 1))) h)
      as (l1 & -> & Hl1).
    rewrite lookup_insert_eq, insert_insert_eq, lookup_insert_eq.
    set (pushed := push (slice elems 0 (ci + 1)) v).
    set (h1 := <[l1:=ByRef.Arr pushed]> h).
    assert (Hh1 : h ⊆ h1) by (apply insert_subseteq, Hl1).
    destruct (Z.of_nat (length pushed) >? maxHistory opts).
    + unfold h1 at 1. rewrite lookup_insert_eq.
      destruct (alloc_fresh_loc
                  (ByRef.Arr (slice_from pushed (- maxHistory opts))) h1)
        as (l2 & -> & Hl2).
      rewrite lookup_insert_eq.
      set (h2 := <[l2:=_]> h1).
      assert (Hh2 : h1 ⊆ h2) by (apply insert_subseteq, Hl2).
      destruct (alloc_fresh_loc
                  (ByRef.Rec l2
                     (Z.of_nat (length (slice_from pushed (- maxHistory opts))) - 1)
                     ini) h2)
        as (l3 & -> & Hl3).
      eexists _, _. split; [reflexivity|]. split; [|split].
      * apply read_new_record; [exact Hl3|]. apply lookup_insert_eq.
      * etransitivity; [exact Hh1|]. etransitivity; [exact Hh2|].
        apply insert_subseteq, Hl3.
      * eapply lookup_weaken_None; [exact Hl3|].
        etransitivity; [exact Hh1|exact Hh2].
    + unfold h1 at 1. rewrite lookup_insert_eq.
      destruct (alloc_fresh_loc
                  (ByRef.Rec l1 (Z.of_nat (length pushed) - 1) ini) h1)
        as (l3 & -> & Hl3).
      eexists _, _. split; [reflexivity|]. split; [|split].
      * apply read_new_record; [exact Hl3|]. apply lookup_insert_eq.
      * etransitivity; [exact Hh1|]. apply insert_subseteq, Hl3.
      * eapply lookup_weaken_None; [exact Hl3|exact Hh1].
  - (* UNDO *)
    destruct (ci >? 0); cbn [negb].
    + destruct (alloc_fresh_loc (ByRef.Rec arr (ci - 1) ini) h)
        as (l & -> & Hl).
      eexists _, _. split; [reflexivity|]. split; [|split].
      * apply read_new_record; assumption.
      * apply insert_subseteq, Hl.
      * exact Hl.
    + eexists _, _. split; [reflexivity|]. repeat split; [exact Hread|].
      reflexivity.
  - (* REDO *)
    rewrite Harr.
    destruct (enableRedo opts && (ci <? Z.of_nat (length elems) - 1));
      cbn [negb].
    + destruct (alloc_fresh_loc (ByRef.Rec arr (ci + 1) ini) h)
        as (l & -> & Hl).
      eexists _, _. split; [reflexivity|]. split; [|split].
      * apply read_new_record; assumption.
      * apply insert_subseteq, Hl.
      * exact Hl.
    + eexists _, _. split; [reflexivity|]. repeat split; [exact Hread|].
      reflexivity.
  - (* RESET *)
    destruct (alloc_fresh_loc (ByRef.Arr [ini]) h) as (l1 & -> & Hl1).
    set (h1 := <[l1:=_]> h).
    assert (Hh1 : h ⊆ h1) by (apply insert_subseteq, Hl1).
    destruct (alloc_fresh_loc (ByRef.Rec l1 0 ini) h1) as (l2 & -> & Hl2).
    eexists _, _. split; [reflexivity|]. split; [|split].
    + apply read_new_record; [exact Hl2|]. apply lookup_insert_eq.
    + etransitivity; [exact Hh1|]. apply insert_subseteq, Hl2.
    + eapply lookup_weaken_None; [exact Hl2|exact Hh1].
  - (* CLEAR *)
    rewrite Harr.
    destruct (alloc_fresh_loc (ByRef.Arr [array_get undefined elems ci]) h)
      as (l1 & -> & Hl1).
    set (h1 := <[l1:=_]> h).
    assert (Hh1 : h ⊆ h1) by (apply insert_subseteq, Hl1).
    destruct (alloc_fresh_loc (ByRef.Rec l1 0 ini) h1) as (l2 & -> & Hl2).
    eexists _, _. split; [reflexivity|]. split; [|split].
    + apply read_new_record; [exact Hl2|]. apply lookup_insert_eq.
    + etransitivity; [exact Hh1|]. apply insert_subseteq, Hl2.
    + eapply lookup_weaken_None; [exact Hl2|exact Hh1].
  - (* GO_TO_INDEX *)
    rewrite Harr.
    destruct (alloc_fresh_loc
                (ByRef.Rec arr
                   (Z.max 0 (Z.min i (Z.of_nat (length elems) - 1))) ini) h)
      as (l & -> & Hl).
    eexists _, _. split; [reflexivity|]. split; [|split].
    + apply read_new_record; assumption.
    + apply insert_subseteq, Hl.
    + exact Hl.
Qed.
End byref_facts.

Section byref_manager.
Context {T : Type}.
Variable undefined : T.
Variable opts : HistoryManagerOptions.
Variable init : T.

(** The manager on the store holds a record whose value is a state the
    manager on values can hold. *)
Lemma byref_reachable_read (h : gmap positive (ByRef.object T))
    (m : ByRef.HistoryManager) :
  ByRef.reachable undefined opts init h m ->
  ByRef.options m = opts
  /\ exists s, ByRef.read h (ByRef.currentState m) = Some s
               /\ reachable undefined opts init s.
Proof.
  induction 1 as [h m Hcreate|h m a m' r h' Hreach IH Hdispatch].
  - unfold ByRef.createHistoryManager, ByRef.bind, ByRef.ret in Hcreate.
    destruct (alloc_fresh_loc (ByRef.Arr [init]) ∅) as (l1 & Hl1 & Hnew1).
    rewrite Hl1 in Hcreate.
    destruct (alloc_fresh_loc (ByRef.Rec l1 0 init) (<[l1:=ByRef.Arr [init]]> ∅))
      as (l2 & Hl2 & Hnew2).
    rewrite Hl2 in Hcreate. injection Hcreate as <- <-.
    split; [reflexivity|]. eexists. split.
    + apply read_new_record; [exact Hnew2|]. apply lookup_insert_eq.
    + exists []. reflexivity.
  - destruct IH as (Hopts & s & Hread & Hs).
    destruct (historyReducer_store undefined h (ByRef.currentState m) s a
                (ByRef.options m) Hread)
      as (state' & h1 & Hred & Hread' & _).
    unfold ByRef.dispatch, ByRef.bind, ByRef.ret in Hdispatch.
    rewrite Hred in Hdispatch. injection Hdispatch as <- <- <-.
    split; [exact Hopts|]. exists (historyReducer undefined s a opts).
    rewrite <- Hopts at 1. split; [exact Hread'|].
    apply reachable_step, Hs.
Qed.
End byref_manager.

(** C5, as the code has it. Every operation on a manager returns a record
    holding the value the reducer computes and leaves every object that was
    in the store, the history arrays among them, as it was. The record
    returned is a new one, except when there is nothing to do ([undo] with
    the cursor on the first entry, [redo] when it is disabled or the cursor
    is on the last entry): then it is the input record itself and the store
    is untouched. *)
Theorem operations_keep_store_and_allocate {T : Type} (undefined init : T)
    (opts : HistoryManagerOptions) (h : gmap positive (ByRef.object T))
    (m : ByRef.HistoryManager) (a : HistoryAction T) :
  ByRef.reachable undefined opts init h m ->
  exists s m' r h',
    ByRef.read h (ByRef.currentState m) = Some s
    /\ ByRef.dispatch undefined a m h = Some (m', r, h')
    /\ ByRef.currentState m' = r
    /\ ByRef.read h' r = Some (historyReducer undefined s a opts)
    /\ h ⊆ h'
    /\ (if nothing_to_do opts s a
        then r = ByRef.currentState m /\ h' = h
        else h !! r = None /\ r <> ByRef.currentState m).
Proof.
  intros Hreach.
  destruct (byref_reachable_read undefined opts init h m Hreach)
    as (Hopts & s & Hread & _).
  destruct (historyReducer_store undefined h (ByRef.currentState m) s a
              (ByRef.options m) Hread)
    as (state' & h' & Hred & Hread' & Hsub & Hid).
  rewrite Hopts in Hread', Hid.
  exists s, (ByRef.mkManager (ByRef.options m) state'), state', h'.
  split; [exact Hread|]. split.
  { unfold ByRef.dispatch, ByRef.bind, ByRef.ret. rewrite Hred. reflexivity. }
  split; [reflexivity|]. split; [exact Hread'|]. split; [exact Hsub|].
  destruct (nothing_to_do opts s a); [exact Hid|].
  split; [exact Hid|]. intros ->.
  apply read_Some in Hread as (arr & Hst & _). congruence.
Qed.

Lemma operations_keep_store_and_allocate_witness :
  let opts := mkOptions 50 true in
  let init := JsString "initial" in
  let h : gmap positive (ByRef.object JsValue) :=
    <[2%positive:=ByRef.Rec 1%positive 0 init]>
      (<[1%positive:=ByRef.Arr [init]]> ∅) in
  let m := ByRef.mkManager opts 2%positive in
  exists m' r h',
    ByRef.dispatch JsUndefined (SET_STATE (JsString "a")) m h
    = Some (m', r, h')
    /\ ByRef.read h' r
       = Some (mkHistoryState [JsString "initial"; JsString "a"] 1 init)
    /\ h ⊆ h'
    /\ r <> 2%positive.
Proof.
  intros opts init h m.
  destruct (operations_keep_store_and_allocate JsUndefined init opts h m
              (SET_STATE (JsString "a")))
    as (s & m' & r & h' & Hread & Hdispatch & _ & Hread' & Hsub & Hnew).
  - apply ByRef.reachable_create. reflexivity.
  - exists m', r, h'.
    vm_compute in Hread. injection Hread as <-. cbn [nothing_to_do] in Hnew.
    split; [exact Hdispatch|]. split; [exact Hread'|]. split; [exact Hsub|].
    apply Hnew.
Defined.

(** C5, as stated, fails: on a manager just created, [undo] (and [redo])
    return the very record the manager held, not a new one. *)
Lemma undo_with_nothing_to_do_returns_input_record :
  let opts := mkOptions 50 true in
  let init := JsString "initial" in
  let h : gmap positive (ByRef.object JsValue) :=
    <[2%positive:=ByRef.Rec 1%positive 0 init]>
      (<[1%positive:=ByRef.Arr [init]]> ∅) in
  let m := ByRef.mkManager opts 2%positive in
  ByRef.createHistoryManager init opts ∅ = Some (m, h)
  /\ ByRef.reachable JsUndefined opts init h m
  /\ ByRef.dispatch JsUndefined UNDO m h = Some (m, ByRef.currentState m, h)
  /\ ByRef.dispatch JsUndefined REDO m h = Some (m, ByRef.currentState m, h)
  /\ ~ (forall (a : HistoryAction JsValue) m' r h',
          ByRef.dispatch JsUndefined a m h = Some (m', r, h') ->
          r <> ByRef.currentState m).
Proof.
  intros opts init h m.
  assert (Hcreate : ByRef.createHistoryManager init opts ∅ = Some (m, h))
    by reflexivity.
  assert (Hundo : ByRef.dispatch JsUndefined UNDO m h
                  = Some (m, ByRef.currentState m, h)) by reflexivity.
  repeat split; try reflexivity.
  - apply ByRef.reachable_create. exact Hcreate.
  - intros Hall. exact (Hall UNDO m (ByRef.currentState m) h Hundo eq_refl).
Qed.

(** * Further properties of [src/utils/history.ts] *)

Section reducer_more.
Context {T : Type}.
Variable undefined : T.
Variable opts : HistoryManagerOptions.
Implicit Types (s : HistoryState T) (a : HistoryAction T) (v : T).

Local Abbreviation step s a := (historyReducer undefined s a opts).

Lemma slice_from_zero (l : list T) : slice_from l 0 = l.
Proof. unfold slice_from. apply slice_whole. Qed.

(** What [setState] leaves, for each sign of [maxHistory]. *)
Lemma setState_history_by_capacity s v :
  let appended := slice (history s) 0 (currentIndex s + 1) ++ [v] in
  history (step s (SET_STATE v))
  = if 0 <? maxHistory opts then last_n (maxHistory opts) appended
    else if maxHistory opts <? 0
         then (if maxHistory opts <? Z.of_nat (length appended)
               then slice_from appended (- maxHistory opts) else appended)
         else appended.
Proof.
  intros appended. destruct (Z.ltb_spec 0 (maxHistory opts)) as [Hpos|Hle].
  - apply setState_history_slice, Hpos.
  - cbn [historyReducer history]. unfold push. fold appended.
    rewrite (Z.gtb_ltb (Z.of_nat (length appended))).
    destruct (Z.ltb_spec (maxHistory opts) 0) as [Hneg|Hge]; [reflexivity|].
    replace (maxHistory opts) with 0 by lia. cbn [Z.opp].
    rewrite slice_from_zero. destruct (_ <? _); reflexivity.
Qed.

Lemma last_n_last (l : list T) v n :
  0 < n -> last (last_n n (l ++ [v])) = Some v.
Proof.
  intros Hn. unfold last_n. rewrite length_app. cbn [length].
  rewrite drop_app_le by lia. apply last_snoc.
Qed.

Lemma last_lookup_Z (l : list T) v :
  last l = Some v ->
  1 <= Z.of_nat (length l)
  /\ l !! Z.to_nat (Z.of_nat (length l) - 1) = Some v.
Proof.
  intros Hlast. rewrite last_lookup in Hlast.
  destruct l as [|x l]; [discriminate|]. cbn [length] in *.
  split; [lia|].
  replace (Z.to_nat (Z.of_nat (S (length l)) - 1)) with (pred (S (length l)))
    by lia.
  exact Hlast.
Qed.

Lemma setState_last s v :
  0 <= maxHistory opts -> last (history (step s (SET_STATE v))) = Some v.
Proof.
  intros Hm. rewrite setState_history_by_capacity. case_ltb.
  - apply last_n_last. lia.
  - apply last_snoc.
Qed.
End reducer_more.

(** X1. With [maxHistory >= 0], whatever the state before, after
    [setState v] the cursor is in range and the entry under it is [v]. *)
Theorem written_value_is_current {T : Type} (undefined : T)
    (opts : HistoryManagerOptions) (s : HistoryState T) (v : T) :
  0 <= maxHistory opts ->
  let s' := historyReducer undefined s (SET_STATE v) opts in
  cursor_in_range s'
  /\ history s' !! Z.to_nat (currentIndex s') = Some v
  /\ current undefined s' = v.
Proof.
  intros Hm s'.
  destruct (last_lookup_Z (history s') v (setState_last undefined opts s v Hm))
    as [Hlen Hlook].
  assert (Hc : currentIndex s' = Z.of_nat (length (history s')) - 1)
    by apply setState_cursor.
  rewrite <- Hc in Hlook.
  split; [unfold cursor_in_range; lia|]. split; [exact Hlook|].
  apply array_get_lookup; [lia|exact Hlook].
Qed.

Lemma written_value_is_current_witness :
  let s := mkHistoryState [JsString "a"; JsString "b"; JsString "c"] 7
             (JsString "a") in
  let s' := historyReducer JsUndefined s (SET_STATE (JsString "d"))
              (mkOptions 2 true) in
  cursor_in_range s'
  /\ history s' !! Z.to_nat (currentIndex s') = Some (JsString "d")
  /\ current JsUndefined s' = JsString "d".
Proof.
  apply (written_value_is_current JsUndefined (mkOptions 2 true)). cbn. lia.
Defined.

(** X2. Right after a [setState] there is nothing to redo: [redo] gives the
    state back as it is, for every state and every option. *)
Theorem redo_after_write_changes_nothing {T : Type} (undefined : T)
    (opts : HistoryManagerOptions) (s : HistoryState T) (v : T) :
  let s' := historyReducer undefined s (SET_STATE v) opts in
  historyReducer undefined s' REDO opts = s'
  /\ nothing_to_do opts s' REDO = true.
Proof.
  intros s'.
  assert (Hc : currentIndex s' = Z.of_nat (length (history s')) - 1)
    by apply setState_cursor.
  split.
  - apply redo_stays. right. lia.
  - cbn [nothing_to_do]. destruct (enableRedo opts); cbn [andb negb];
      [|reflexivity].
    case_ltb; reflexivity.
Qed.

(** X3. On a state whose cursor is in range, [n] calls of [undo] move the
    cursor back by [n] and stop at [0]; the history and the initial state
    stay as they are. *)
Theorem repeated_undo {T : Type} (undefined : T)
    (opts : HistoryManagerOptions) (s : HistoryState T) (n : nat) :
  cursor_in_range s ->
  getState (run undefined (replicate n CallUndo) (mkManager opts s))
  = mkHistoryState (history s) (Z.max 0 (currentIndex s - Z.of_nat n))
      (initialState s).
Proof.
  intros [Hlo Hhi]. induction n as [|n IH].
  - cbn. destruct s as [h ci ini]. cbn in *. f_equal. lia.
  - rewrite replicate_S_end, run_snoc. cbn [perform].
    unfold undo, dispatch, getState in *. cbn [fst currentState].
    rewrite run_options, IH. cbn [options].
    destruct (decide (0 < currentIndex s - Z.of_nat n)) as [Hpos|Hnpos].
    + rewrite undo_moves by (cbn; lia). cbn. f_equal. lia.
    + rewrite undo_stays by (cbn; lia). f_equal. lia.
Qed.

Lemma repeated_undo_witness :
  let s := mkHistoryState [JsString "a"; JsString "b"; JsString "c"] 2
             (JsString "a") in
  currentIndex (getState (run JsUndefined (replicate 1 CallUndo)
                            (mkManager (mkOptions 5 true) s))) = 1
  /\ currentIndex (getState (run JsUndefined (replicate 9 CallUndo)
                               (mkManager (mkOptions 5 true) s))) = 0.
Proof.
  intros s. split.
  - rewrite (repeated_undo JsUndefined (mkOptions 5 true) s 1);
      [reflexivity|unfold cursor_in_range; cbn; lia].
  - rewrite (repeated_undo JsUndefined (mkOptions 5 true) s 9);
      [reflexivity|unfold cursor_in_range; cbn; lia].
Defined.

(** X4. On a state whose cursor is in range, [n] calls of [redo] move the
    cursor forward by [n] and stop at the last entry when [enableRedo] is
    set, and leave the state as it is when it is not. *)
Theorem repeated_redo {T : Type} (undefined : T)
    (opts : HistoryManagerOptions) (s : HistoryState T) (n : nat) :
  cursor_in_range s ->
  getState (run undefined (replicate n CallRedo) (mkManager opts s))
  = mkHistoryState (history s)
      (if enableRedo opts
       then Z.min (Z.of_nat (length (history s)) - 1)
              (currentIndex s + Z.of_nat n)
       else currentIndex s)
      (initialState s).
Proof.
  intros [Hlo Hhi]. induction n as [|n IH].
  - cbn. destruct s as [h ci ini]. cbn in *. f_equal.
    destruct (enableRedo opts); lia.
  - rewrite replicate_S_end, run_snoc. cbn [perform].
    unfold redo, dispatch, getState in *. cbn [fst currentState].
    rewrite run_options, IH. cbn [options].
    destruct (enableRedo opts) eqn:Hredo.
    + destruct (decide (currentIndex s + Z.of_nat n
                        < Z.of_nat (length (history s)) - 1)) as [Hlt|Hge].
      * rewrite redo_moves by (cbn; first [exact Hredo|lia]).
        cbn. f_equal. lia.
      * rewrite redo_stays by (right; cbn; lia). f_equal. lia.
    + apply redo_stays. left. exact Hredo.
Qed.

Lemma repeated_redo_witness :
  let s := mkHistoryState [JsString "a"; JsString "b"; JsString "c"] 0
             (JsString "a") in
  currentIndex (getState (run JsUndefined (replicate 9 CallRedo)
                            (mkManager (mkOptions 5 true) s))) = 2
  /\ currentIndex (getState (run JsUndefined (replicate 9 CallRedo)
                               (mkManager (mkOptions 5 false) s))) = 0.
Proof.
  intros s. split.
  - rewrite (repeated_redo JsUndefined (mkOptions 5 true) s 9);
      [reflexivity|unfold cursor_in_range; cbn; lia].
  - rewrite (repeated_redo JsUndefined (mkOptions 5 false) s 9);
      [reflexivity|unfold cursor_in_range; cbn; lia].
Defined.

(** X5. On a state whose cursor is in range, [undo] returns the state
    [goToIndex (currentIndex - 1)] returns, and with [enableRedo] set [redo]
    returns the state [goToIndex (currentIndex + 1)] returns. *)
Theorem undo_redo_are_jumps {T : Type} (undefined : T)
    (opts : HistoryManagerOptions) (s : HistoryState T) :
  cursor_in_range s ->
  historyReducer undefined s UNDO opts
  = historyReducer undefined s (GO_TO_INDEX (currentIndex s - 1)) opts
  /\ (enableRedo opts = true ->
      historyReducer undefined s REDO opts
      = historyReducer undefined s (GO_TO_INDEX (currentIndex s + 1)) opts).
Proof.
  intros [Hlo Hhi]. split.
  - destruct (decide (0 < currentIndex s)) as [Hpos|Hnpos].
    + rewrite undo_moves by exact Hpos. cbn. f_equal. lia.
    + rewrite undo_stays by lia. destruct s as [h ci ini]. cbn in *.
      f_equal. lia.
  - intros Hredo.
    destruct (decide (currentIndex s < Z.of_nat (length (history s)) - 1))
      as [Hlt|Hge].
    + rewrite redo_moves by assumption. cbn. f_equal. lia.
    + rewrite redo_stays by (right; lia). destruct s as [h ci ini]. cbn in *.
      f_equal. lia.
Qed.

Lemma undo_redo_are_jumps_witness :
  let s := mkHistoryState [JsString "a"; JsString "b"] 0 (JsString "a") in
  historyReducer JsUndefined s UNDO (mkOptions 5 true)
  = historyReducer JsUndefined s (GO_TO_INDEX (-1)) (mkOptions 5 true)
  /\ historyReducer JsUndefined s REDO (mkOptions 5 true)
     = historyReducer JsUndefined s (GO_TO_INDEX 1) (mkOptions 5 true).
Proof.
  intros s.
  destruct (undo_redo_are_jumps JsUndefined (mkOptions 5 true) s) as [Hu Hr].
  - unfold cursor_in_range. cbn. lia.
  - split; [exact Hu|]. apply Hr. reflexivity.
Defined.

(** X6. [reset] forgets the operation before it: after any one operation it
    returns what it returns without it, and leaves nothing to undo or
    redo. *)
Theorem reset_absorbs {T : Type} (undefined : T)
    (opts : HistoryManagerOptions) (s : HistoryState T)
    (a : HistoryAction T) :
  let r := historyReducer undefined s RESET opts in
  historyReducer undefined (historyReducer undefined s a opts) RESET opts = r
  /\ historyReducer undefined r UNDO opts = r
  /\ historyReducer undefined r REDO opts = r.
Proof.
  intros r. subst r. split; [|split].
  - cbn [historyReducer]. rewrite step_initialState. reflexivity.
  - apply undo_stays. cbn. lia.
  - apply redo_stays. right. cbn. lia.
Qed.

(** X7. [clear] twice is [clear] once; after [clear] there is nothing to
    undo or redo, and [reset] still brings back the initial state. *)
Theorem clear_is_idempotent {T : Type} (undefined : T)
    (opts : HistoryManagerOptions) (s : HistoryState T) :
  let c := historyReducer undefined s CLEAR opts in
  historyReducer undefined c CLEAR opts = c
  /\ historyReducer undefined c UNDO opts = c
  /\ historyReducer undefined c REDO opts = c
  /\ historyReducer undefined c RESET opts
     = historyReducer undefined s RESET opts.
Proof.
  intros c. subst c. split; [|split; [|split]].
  - reflexivity.
  - apply undo_stays. cbn. lia.
  - apply redo_stays. right. cbn. lia.
  - reflexivity.
Qed.

Section capacity_edges.
Context {T : Type}.
Variable undefined : T.
Variable opts : HistoryManagerOptions.

Lemma slice_from_drop (l : list T) k :
  0 <= k -> slice_from l k = drop (Z.to_nat k) l.
Proof.
  intros Hk. unfold slice_from, slice, relative_index. case_ltb.
  rewrite take_ge by (rewrite length_drop; lia).
  destruct (decide (k <= Z.of_nat (length l))) as [Hle|Hgt].
  - f_equal. lia.
  - rewrite !drop_ge by lia. reflexivity.
Qed.

(** With [maxHistory = 0] a run of writes on a new manager keeps
    everything. *)
Lemma writes_without_capacity (init : T) (vs : list T) :
  maxHistory opts = 0 ->
  let s := getState (run undefined (CallSetState <$> vs)
                       (createHistoryManager init opts)) in
  history s = init :: vs /\ currentIndex s = Z.of_nat (length vs).
Proof.
  intros Hm. induction vs as [|v vs IH] using rev_ind.
  - cbn. split; reflexivity.
  - cbv zeta in *. destruct IH as [Hh Hc].
    rewrite fmap_app. change (CallSetState <$> [v]) with [CallSetState v].
    rewrite run_snoc. cbn [perform].
    unfold setState, dispatch, getState in *. cbn [fst currentState].
    rewrite run_options. cbn [createHistoryManager options].
    set (s1 := currentState (run undefined (CallSetState <$> vs)
                               (createHistoryManager init opts))) in *.
    assert (Hh' : history (historyReducer undefined s1 (SET_STATE v) opts)
                  = (init :: vs) ++ [v]).
    { rewrite setState_history_by_capacity. rewrite Hm. cbn [Z.ltb Z.compare].
      rewrite Hc, Hh.
      replace (Z.of_nat (length vs) + 1)
        with (Z.of_nat (length (init :: vs))) by (cbn [length]; lia).
      rewrite slice_whole. reflexivity. }
    split; [exact Hh'|].
    rewrite setState_cursor, Hh', !length_app. cbn [length]. lia.
Qed.
End capacity_edges.

(** X8. [createHistoryManager] accepts [maxHistory = 0], and then nothing is
    ever evicted: after any run of [setState] calls on the new manager the
    history is the initial state followed by every written value, and the
    cursor is on the last one. *)
Theorem zero_capacity_never_evicts {T : Type} (undefined init : T)
    (opts : HistoryManagerOptions) (vs : list T) :
  maxHistory opts = 0 ->
  let s := getState (run undefined (CallSetState <$> vs)
                       (createHistoryManager init opts)) in
  history s = init :: vs
  /\ currentIndex s = Z.of_nat (length vs)
  /\ maxHistory opts < Z.of_nat (length (history s)).
Proof.
  intros Hm s.
  destruct (writes_without_capacity undefined opts init vs Hm) as [Hh Hc].
  fold s in Hh, Hc. split; [exact Hh|]. split; [exact Hc|].
  rewrite Hh, Hm. cbn [length]. lia.
Qed.

Lemma zero_capacity_never_evicts_witness :
  history (getState (run JsUndefined
                       (CallSetState <$> [JsString "a"; JsString "b"])
                       (createHistoryManager (JsString "initial")
                          (mkOptions 0 true))))
  = [JsString "initial"; JsString "a"; JsString "b"].
Proof.
  apply (zero_capacity_never_evicts JsUndefined (JsString "initial")
           (mkOptions 0 true) [JsString "a"; JsString "b"]).
  reflexivity.
Defined.

(** X9. [createHistoryManager] accepts a negative [maxHistory] too, and then
    [setState] drops the [- maxHistory] oldest of the entries it would keep:
    with [maxHistory <= -2] the first write on a new manager leaves an empty
    history and the cursor at [-1]. *)
Theorem negative_capacity_drops_from_the_front {T : Type} (undefined : T)
    (opts : HistoryManagerOptions) :
  maxHistory opts < 0 ->
  (forall (s : HistoryState T) (v : T),
      history (historyReducer undefined s (SET_STATE v) opts)
      = drop (Z.to_nat (- maxHistory opts))
          (slice (history s) 0 (currentIndex s + 1) ++ [v]))
  /\ (maxHistory opts <= -2 ->
      forall init v : T,
        snd (setState undefined v (createHistoryManager init opts))
        = mkHistoryState [] (-1) init).
Proof.
  intros Hm.
  assert (Hstep : forall (s : HistoryState T) (v : T),
             history (historyReducer undefined s (SET_STATE v) opts)
             = drop (Z.to_nat (- maxHistory opts))
                 (slice (history s) 0 (currentIndex s + 1) ++ [v])).
  { intros s v. rewrite setState_history_by_capacity. case_ltb.
    apply slice_from_drop. lia. }
  split; [exact Hstep|].
  intros Hm2 init v. unfold setState, dispatch.
  cbn [snd createHistoryManager currentState options].
  set (s0 := mkHistoryState [init] 0 init).
  assert (Hh : history (historyReducer undefined s0 (SET_STATE v) opts) = []).
  { rewrite Hstep. apply drop_ge. rewrite length_app.
    assert (length (slice (history s0) 0 (currentIndex s0 + 1)) <= 1)%nat.
    { unfold slice. rewrite length_take, length_drop. cbn. lia. }
    cbn [length]. lia. }
  pose proof (setState_cursor undefined opts s0 v) as Hc.
  pose proof (step_initialState undefined opts s0 (SET_STATE v)) as Hi.
  destruct (historyReducer undefined s0 (SET_STATE v) opts) as [h ci ini].
  cbn [history currentIndex initialState] in *. subst h. cbn in Hc.
  subst. reflexivity.
Qed.

Lemma negative_capacity_drops_from_the_front_witness :
  snd (setState JsUndefined (JsString "a")
         (createHistoryManager (JsString "initial") (mkOptions (-2) true)))
  = mkHistoryState [] (-1) (JsString "initial").
Proof.
  destruct (negative_capacity_drops_from_the_front JsUndefined
              (mkOptions (-2) true)) as [_ Hfirst].
  - cbn. lia.
  - apply Hfirst. cbn. lia.
Defined.

(** X10. With [maxHistory = 1] a manager never holds more than the current
    snapshot: every state it can hold has one entry and the cursor on it,
    so [undo] and [redo] never do anything. *)
Theorem single_slot_history {T : Type} (undefined init : T)
    (opts : HistoryManagerOptions) (s : HistoryState T) :
  maxHistory opts = 1 ->
  reachable undefined opts init s ->
  history s = [current undefined s]
  /\ currentIndex s = 0
  /\ historyReducer undefined s UNDO opts = s
  /\ historyReducer undefined s REDO opts = s.
Proof.
  intros Hm Hr.
  pose proof (reachable_cursor_in_range undefined opts init s ltac:(lia) Hr)
    as Hs.
  pose proof (reachable_within_capacity undefined opts init s ltac:(lia) Hr)
    as Hcap.
  pose proof (cursor_in_range_lookup undefined s Hs) as Hlook.
  unfold cursor_in_range, within_capacity in *.
  assert (Hci : currentIndex s = 0) by lia.
  split; [|split; [exact Hci|split]].
  - rewrite Hci in Hlook.
    destruct (history s) as [|x [|y l]]; cbn [length] in Hcap; [lia| |lia].
    assert (Hx : Some x = Some (current undefined s)) by exact Hlook.
    congruence.
  - apply undo_stays. lia.
  - apply redo_stays. right. lia.
Qed.

Lemma single_slot_history_witness :
  let opts := mkOptions 1 true in
  let s := getState (run JsUndefined
                       [CallSetState (JsString "a"); CallSetState (JsString "b")]
                       (createHistoryManager (JsString "initial") opts)) in
  history s = [JsString "b"]
  /\ historyReducer JsUndefined s UNDO opts = s.
Proof.
  intros opts s.
  destruct (single_slot_history JsUndefined (JsString "initial") opts s)
    as (Hh & _ & Hu & _).
  - reflexivity.
  - eexists. reflexivity.
  - split; [rewrite Hh; reflexivity|exact Hu].
Defined.

Section byref_more.
Context {T : Type}.
Variable undefined : T.
Implicit Types (h : gmap positive (ByRef.object T)).

(** Where the record returned by the reducer finds its history array. *)
Lemma historyReducer_history_field h state arr ci ini elems
    (a : HistoryAction T) (opts : HistoryManagerOptions) :
  h !! state = Some (ByRef.Rec arr ci ini) ->
  h !! arr = Some (ByRef.Arr elems) ->
  exists state' h' arr' ci',
    ByRef.historyReducer undefined state a opts h = Some (state', h')
    /\ h' !! state' = Some (ByRef.Rec arr' ci' ini)
    /\ match a with
       | UNDO | REDO | GO_TO_INDEX _ => arr' = arr
       | SET_STATE _ | RESET | CLEAR => h !! arr' = None
       end.
Proof.
  intros Hst Harr.
  unfold ByRef.historyReducer, ByRef.bind, ByRef.load_record,
    ByRef.array_length, ByRef.array_read, ByRef.array_slice,
    ByRef.array_slice_from, ByRef.array_push, ByRef.load_array, ByRef.bind,
    ByRef.ret.
  destruct a as [v| | | | |i]; rewrite Hst.
  - rewrite Harr.
    destruct (alloc_fresh_loc (ByRef.Arr (slice elems 0 (ci + 1))) h)
      as (l1 & -> & Hl1).
    rewrite lookup_insert_eq, insert_insert_eq, lookup_insert_eq.
    set (pushed := push (slice elems 0 (ci + 1)) v).
    set (h1 := <[l1:=ByRef.Arr pushed]> h).
    assert (Hh1 : h ⊆ h1) by (apply insert_subseteq, Hl1).
    destruct (Z.of_nat (length pushed) >? maxHistory opts).
    + unfold h1 at 1. rewrite lookup_insert_eq.
      destruct (alloc_fresh_loc
                  (ByRef.Arr (slice_from pushed (- maxHistory opts))) h1)
        as (l2 & -> & Hl2).
      rewrite lookup_insert_eq.
      destruct (alloc_fresh_loc
                  (ByRef.Rec l2
                     (Z.of_nat (length (slice_from pushed (- maxHistory opts))) - 1)
                     ini)
                  (<[l2:=ByRef.Arr (slice_from pushed (- maxHistory opts))]> h1))
        as (l3 & -> & Hl3).
      eexists _, _, _, _. split; [reflexivity|]. split.
      * apply lookup_insert_eq.
      * eapply lookup_weaken_None; [exact Hl2|exact Hh1].
    + unfold h1 at 1. rewrite lookup_insert_eq.
      destruct (alloc_fresh_loc
                  (ByRef.Rec l1 (Z.of_nat (length pushed) - 1) ini) h1)
        as (l3 & -> & Hl3).
      eexists _, _, _, _. split; [reflexivity|]. split.
      * apply lookup_insert_eq.
      * exact Hl1.
  - destruct (ci >? 0).
    + destruct (alloc_fresh_loc (ByRef.Rec arr (ci - 1) ini) h)
        as (l & -> & Hl).
      eexists _, _, _, _. split; [reflexivity|]. split; [|reflexivity].
      apply lookup_insert_eq.
    + eexists _, _, _, _. split; [reflexivity|]. split; [exact Hst|].
      reflexivity.
  - rewrite Harr.
    destruct (enableRedo opts && (ci <? Z.of_nat (length elems) - 1)).
    + destruct (alloc_fresh_loc (ByRef.Rec arr (ci + 1) ini) h)
        as (l & -> & Hl).
      eexists _, _, _, _. split; [reflexivity|]. split; [|reflexivity].
      apply lookup_insert_eq.
    + eexists _, _, _, _. split; [reflexivity|]. split; [exact Hst|].
      reflexivity.
  - destruct (alloc_fresh_loc (ByRef.Arr [ini]) h) as (l1 & -> & Hl1).
    destruct (alloc_fresh_loc (ByRef.Rec l1 0 ini) (<[l1:=ByRef.Arr [ini]]> h))
      as (l2 & -> & Hl2).
    eexists _, _, _, _. split; [reflexivity|]. split; [|exact Hl1].
    apply lookup_insert_eq.
  - rewrite Harr.
    destruct (alloc_fresh_loc (ByRef.Arr [array_get undefined elems ci]) h)
      as (l1 & -> & Hl1).
    destruct (alloc_fresh_loc (ByRef.Rec l1 0 ini)
                (<[l1:=ByRef.Arr [array_get undefined elems ci]]> h))
      as (l2 & -> & Hl2).
    eexists _, _, _, _. split; [reflexivity|]. split; [|exact Hl1].
    apply lookup_insert_eq.
  - rewrite Harr.
    destruct (alloc_fresh_loc
                (ByRef.Rec arr
                   (Z.max 0 (Z.min i (Z.of_nat (length elems) - 1))) ini) h)
      as (l & -> & Hl).
    eexists _, _, _, _. split; [reflexivity|]. split; [|reflexivity].
    apply lookup_insert_eq.
Qed.
End byref_more.

(** X11. On the object store, [undo], [redo] and [goToIndex] return a record
    whose [history] field is the very array of the record they were given,
    while [setState], [reset] and [clear] return a record with an array that
    did not exist before the call. *)
Theorem cursor_moves_share_history_array {T : Type} (undefined init : T)
    (opts : HistoryManagerOptions) (h : gmap positive (ByRef.object T))
    (m : ByRef.HistoryManager) (a : HistoryAction T) :
  ByRef.reachable undefined opts init h m ->
  exists arr ci m' r h' arr' ci',
    h !! ByRef.currentState m = Some (ByRef.Rec arr ci init)
    /\ ByRef.dispatch undefined a m h = Some (m', r, h')
    /\ h' !! r = Some (ByRef.Rec arr' ci' init)
    /\ match a with
       | UNDO | REDO | GO_TO_INDEX _ => arr' = arr
       | SET_STATE _ | RESET | CLEAR => h !! arr' = None /\ arr' <> arr
       end.
Proof.
  intros Hreach.
  destruct (byref_reachable_read undefined opts init h m Hreach)
    as (_ & s & Hread & Hs).
  pose proof (reachable_initialState undefined opts init s Hs) as Hinit.
  apply read_Some in Hread as (arr & Hst & Harr). rewrite Hinit in Hst.
  destruct (historyReducer_history_field undefined h (ByRef.currentState m)
              arr (currentIndex s) init (history s) a (ByRef.options m)
              Hst Harr)
    as (state' & h' & arr' & ci' & Hred & Hrec & Hshare).
  exists arr, (currentIndex s), (ByRef.mkManager (ByRef.options m) state'),
    state', h', arr', ci'.
  split; [exact Hst|]. split.
  { unfold ByRef.dispatch, ByRef.bind, ByRef.ret. rewrite Hred. reflexivity. }
  split; [exact Hrec|].
  destruct a; try exact Hshare; (split; [exact Hshare|congruence]).
Qed.

Lemma cursor_moves_share_history_array_witness :
  let opts := mkOptions 50 true in
  let init := JsString "initial" in
  let h : gmap positive (ByRef.object JsValue) :=
    <[2%positive:=ByRef.Rec 1%positive 0 init]>
      (<[1%positive:=ByRef.Arr [init]]> ∅) in
  let m := ByRef.mkManager opts 2%positive in
  exists m' r h' ci',
    ByRef.dispatch JsUndefined (GO_TO_INDEX 0) m h = Some (m', r, h')
    /\ h' !! r = Some (ByRef.Rec 1%positive ci' init).
Proof.
  intros opts init h m.
  destruct (cursor_moves_share_history_array JsUndefined init opts h m
              (GO_TO_INDEX 0))
    as (arr & ci & m' & r & h' & arr' & ci' & Hst & Hd & Hrec & Hshare).
  - apply ByRef.reachable_create. reflexivity.
  - exists m', r, h', ci'. split; [exact Hd|].
    vm_compute in Hst. injection Hst as <- _. subst arr'. exact Hrec.
Defined.

(** * Properties of [src/hooks/useHistoryState.ts] *)

Section hook_facts.
Context {T : Type}.
Variable undefined : T.
Variable nullish : T -> bool.
Implicit Types (k : Hook.HookInstance (T := T)) (a : HistoryAction T).

Lemma call_manager_dispatch a k :
  Hook.call_manager (dispatch undefined a) k
  = Hook.mkHook (Hook.debounceMs k)
      (mkManager (options (Hook.historyManager k))
         (historyReducer undefined (currentState (Hook.historyManager k)) a
            (options (Hook.historyManager k))))
      (historyReducer undefined (currentState (Hook.historyManager k)) a
         (options (Hook.historyManager k)))
      (Hook.debounceRef k) (Hook.timeouts k) (Hook.nextTimeout k).
Proof. reflexivity. Qed.

Lemma call_manager_settled (init : T) a k :
  Hook.settled undefined init k ->
  Hook.settled undefined init (Hook.call_manager (dispatch undefined a) k).
Proof.
  intros (Hcell & Hreach & Htimers). rewrite call_manager_dispatch.
  unfold Hook.settled. cbn. split; [reflexivity|]. split; [|exact Htimers].
  unfold getState in Hcell. rewrite <- Hcell. apply reachable_step, Hreach.
Qed.

Lemma clearTimeout_settled (init : T) id k :
  Hook.settled undefined init k ->
  Hook.settled undefined init (Hook.clearTimeout id k).
Proof.
  intros (Hcell & Hreach & Htimers). unfold Hook.settled. cbn.
  split; [exact Hcell|]. split; [exact Hreach|].
  intros id' v Hlive. apply lookup_delete_Some in Hlive as [_ Hlive].
  eapply Htimers, Hlive.
Qed.

(** After [clearTimeout] of what [debounceRef] names, nothing is
    scheduled. *)
Lemma settled_cleared (init : T) k :
  Hook.settled undefined init k ->
  match Hook.debounceRef k with
  | Some id => delete id (Hook.timeouts k)
  | None => Hook.timeouts k
  end = ∅.
Proof.
  intros (_ & _ & Htimers). apply map_empty. intros id'.
  destruct (Hook.debounceRef k) as [id|] eqn:Href.
  - apply lookup_delete_None.
    destruct (Hook.timeouts k !! id') as [v|] eqn:Hlive; [|right; reflexivity].
    left. specialize (Htimers id' v Hlive). congruence.
  - destruct (Hook.timeouts k !! id') as [v|] eqn:Hlive; [|reflexivity].
    specialize (Htimers id' v Hlive). discriminate.
Qed.

Lemma handle_settled (init : T) (e : Hook.Event) k :
  Hook.settled undefined init k ->
  Hook.settled undefined init (Hook.handle undefined nullish e k)
  /\ options (Hook.historyManager (Hook.handle undefined nullish e k))
     = options (Hook.historyManager k)
  /\ Hook.debounceMs (Hook.handle undefined nullish e k) = Hook.debounceMs k.
Proof.
  intros Hk.
  destruct e as [rendered value| | | | |i|id|]; cbn [Hook.handle];
    try (split; [apply call_manager_settled, Hk|split; reflexivity]).
  - unfold Hook.setState. destruct (Hook.debounceMs k >? 0).
    + pose proof (settled_cleared init k Hk) as Hclear.
      destruct Hk as (Hcell & Hreach & Htimers).
      unfold Hook.settled.
      destruct (Hook.debounceRef k) as [r|]; cbn in *;
        (split; [split; [exact Hcell|split; [exact Hreach|]]
                |split; reflexivity]);
        rewrite Hclear; intros id' v Hlive;
        apply lookup_insert_Some in Hlive as [[-> _]|[_ Hlive]];
        [reflexivity|rewrite lookup_empty in Hlive; discriminate
        |reflexivity|rewrite lookup_empty in Hlive; discriminate].
    + split; [apply call_manager_settled, Hk|split; reflexivity].
  - unfold Hook.timeout_fires.
    destruct (Hook.timeouts k !! id);
      [|split; [exact Hk|split; reflexivity]].
    split; [apply call_manager_settled, clearTimeout_settled, Hk|].
    split; reflexivity.
  - unfold Hook.unmount.
    destruct (Hook.debounceRef k);
      [|split; [exact Hk|split; reflexivity]].
    split; [apply clearTimeout_settled, Hk|split; reflexivity].
Qed.

Lemma run_events_snoc (events : list Hook.Event) e k :
  Hook.run_events undefined nullish (events ++ [e]) k
  = Hook.handle undefined nullish e (Hook.run_events undefined nullish events k).
Proof. unfold Hook.run_events. rewrite foldl_app. reflexivity. Qed.

Lemma run_events_settled (init : T) (events : list Hook.Event) k :
  Hook.settled undefined init k ->
  Hook.settled undefined init (Hook.run_events undefined nullish events k)
  /\ options (Hook.historyManager (Hook.run_events undefined nullish events k))
     = options (Hook.historyManager k)
  /\ Hook.debounceMs (Hook.run_events undefined nullish events k)
     = Hook.debounceMs k.
Proof.
  intros Hk. induction events as [|e events IH] using rev_ind.
  - split; [exact Hk|split; reflexivity].
  - destruct IH as (Hs & Ho & Hd). rewrite run_events_snoc.
    destruct (handle_settled init e _ Hs) as (Hs' & Ho' & Hd').
    split; [exact Hs'|]. split; congruence.
Qed.

(** What a successful first render sets up. *)
Lemma useHistoryState_inr (init : T) (o : StateHistoryOptions.t) k0 :
  Hook.useHistoryState init o = inr k0 ->
  k0 = Hook.mkHook (default 0 (StateHistoryOptions.debounceMs o))
         (createHistoryManager init
            (mkOptions (default 50 (StateHistoryOptions.maxHistory o))
               (default true (StateHistoryOptions.enableRedo o))))
         (mkHistoryState [init] 0 init) None ∅ 1%positive
  /\ 1 <= default 50 (StateHistoryOptions.maxHistory o)
  /\ 0 <= default 0 (StateHistoryOptions.debounceMs o).
Proof.
  unfold Hook.useHistoryState.
  destruct (StateHistoryOptions.maxHistory o) as [m|],
    (StateHistoryOptions.debounceMs o) as [d|]; cbn [from_option id];
    repeat match goal with
           | |- context [?x <? ?y] => destruct (Z.ltb_spec x y)
           end;
    intros Hmount; try discriminate Hmount; injection Hmount as <-;
    (split; [reflexivity|lia]).
Qed.

(** Every instance a mounted hook can be in has its cells in agreement, a
    manager with the options of the first render, [maxHistory >= 1] and
    [debounceMs >= 0]. *)
Lemma hook_reachable_settled (init : T) (o : StateHistoryOptions.t) k :
  Hook.reachable undefined nullish init o k ->
  Hook.settled undefined init k
  /\ options (Hook.historyManager k)
     = mkOptions (default 50 (StateHistoryOptions.maxHistory o))
         (default true (StateHistoryOptions.enableRedo o))
  /\ Hook.debounceMs k = default 0 (StateHistoryOptions.debounceMs o)
  /\ 1 <= maxHistory (options (Hook.historyManager k))
  /\ 0 <= Hook.debounceMs k.
Proof.
  intros (k0 & events & Hmount & <-).
  apply useHistoryState_inr in Hmount as (-> & Hm & Hd).
  match goal with
  | |- context [Hook.run_events _ _ _ ?k0] =>
      destruct (run_events_settled init events k0) as (Hs & Ho & Hdb)
  end.
  { unfold Hook.settled. cbn. split; [reflexivity|]. split.
    - exists []. reflexivity.
    - intros id v Hlive. rewrite lookup_empty in Hlive. discriminate. }
  split; [exact Hs|]. rewrite Ho, Hdb. cbn.
  split; [reflexivity|]. split; [reflexivity|]. split; assumption.
Qed.
End hook_facts.

(** X12. The first render of [useHistoryState] throws exactly when
    [maxHistory] is given and below [1] (checked first) or [debounceMs] is
    given and negative; otherwise it creates the manager with [maxHistory]
    defaulting to [50] and [enableRedo] to [true], so with
    [maxHistory >= 1], takes [debounceMs] defaulting to [0], shows the
    state [[initialState]] and schedules nothing. *)
Theorem useHistoryState_validates_options {T : Type} (init : T)
    (o : StateHistoryOptions.t) :
  match Hook.useHistoryState init o with
  | inl message =>
      (exists m, StateHistoryOptions.maxHistory o = Some m /\ m < 1
                 /\ message = "maxHistory must be a positive number"%string)
      \/ ((forall m, StateHistoryOptions.maxHistory o = Some m -> 1 <= m)
          /\ exists d, StateHistoryOptions.debounceMs o = Some d /\ d < 0
                       /\ message
                          = "debounceMs must be a non-negative number"%string)
  | inr k =>
      (forall m, StateHistoryOptions.maxHistory o = Some m -> 1 <= m)
      /\ (forall d, StateHistoryOptions.debounceMs o = Some d -> 0 <= d)
      /\ options (Hook.historyManager k)
         = mkOptions (default 50 (StateHistoryOptions.maxHistory o))
             (default true (StateHistoryOptions.enableRedo o))
      /\ 1 <= maxHistory (options (Hook.historyManager k))
      /\ Hook.debounceMs k = default 0 (StateHistoryOptions.debounceMs o)
      /\ Hook.historyState k = mkHistoryState [init] 0 init
      /\ getState (Hook.historyManager k) = Hook.historyState k
      /\ Hook.timeouts k = ∅
  end.
Proof.
  unfold Hook.useHistoryState.
  destruct (StateHistoryOptions.maxHistory o) as [m|],
    (StateHistoryOptions.debounceMs o) as [d|]; cbn [from_option id];
    repeat match goal with
           | |- context [?x <? ?y] => destruct (Z.ltb_spec x y)
           end;
    cbn [Hook.historyManager Hook.debounceMs Hook.historyState Hook.timeouts
         createHistoryManager options maxHistory getState currentState].
  all: try (left; exists m; repeat split; [assumption]).
  all: try (right; split;
            [first [intros ? [= <-]; lia|discriminate]
            |exists d; repeat split; assumption]).
  all: repeat split; try lia; try (intros ? [= <-]; lia); try discriminate.
Qed.

Lemma useHistoryState_validates_options_witness :
  Hook.useHistoryState (JsString "initial")
    (StateHistoryOptions.mk (Some 0) None None)
  = inl "maxHistory must be a positive number"%string
  /\ Hook.useHistoryState (JsString "initial")
       (StateHistoryOptions.mk (Some 3) (Some (-1)) None)
     = inl "debounceMs must be a non-negative number"%string
  /\ exists k,
       Hook.useHistoryState (JsString "initial")
         (StateHistoryOptions.mk None None None) = inr k
       /\ options (Hook.historyManager k) = mkOptions 50 true.
Proof.
  split; [reflexivity|]. split; [reflexivity|].
  pose proof (useHistoryState_validates_options (JsString "initial")
                (StateHistoryOptions.mk None None None)) as Hmount.
  destruct (Hook.useHistoryState (JsString "initial")
              (StateHistoryOptions.mk None None None)) as [msg|k] eqn:Hk;
    [discriminate Hk|].
  exists k. split; [reflexivity|]. apply Hmount.
Defined.

Section hook_writes.
Context {T : Type}.
Variable undefined : T.
Variable nullish : T -> bool.
Implicit Types (k : Hook.HookInstance (T := T)).

(** The value [setState] is going to write. *)
Local Abbreviation new_value rendered value :=
  (match value with
   | Hook.Updater f => f (Hook.resolved_state undefined nullish rendered)
   | Hook.NewValue v => v
   end).


End hook_writes.









Section hook_debounce.
Context {T : Type}.
Variable undefined : T.
Variable nullish : T -> bool.
Implicit Types (k : Hook.HookInstance (T := T)).

End hook_debounce.



(** X18. Unmounting cancels the pending write: after the cleanup nothing is
    scheduled, no timeout can run any more, and the state shown is as it
    was. *)
Theorem unmount_cancels_pending_write {T : Type} (undefined : T)
    (nullish : T -> bool) (init : T) (o : StateHistoryOptions.t)
    (k : Hook.HookInstance) :
  Hook.reachable undefined nullish init o k ->
  let u := Hook.unmount k in
  Hook.timeouts u = ∅
  /\ Hook.historyState u = Hook.historyState k
  /\ Hook.historyManager u = Hook.historyManager k
  /\ forall id, Hook.timeout_fires undefined id u = u.
Proof.
  intros Hk u.
  destruct (hook_reachable_settled undefined nullish init o k Hk)
    as (Hsettled & _).
  pose proof (settled_cleared undefined init k Hsettled) as Hclear.
  assert (Hu : Hook.timeouts u = ∅).
  { subst u. unfold Hook.unmount.
    destruct (Hook.debounceRef k); exact Hclear. }
  split; [exact Hu|]. split; [|split].
  - subst u. unfold Hook.unmount. destruct (Hook.debounceRef k); reflexivity.
  - subst u. unfold Hook.unmount. destruct (Hook.debounceRef k); reflexivity.
  - intros id. unfold Hook.timeout_fires. rewrite Hu, lookup_empty.
    reflexivity.
Qed.

Lemma unmount_cancels_pending_write_witness :
  let k0 := Hook.mkHook 100
              (createHistoryManager (JsString "initial") (mkOptions 50 true))
              (mkHistoryState [JsString "initial"] 0 (JsString "initial"))
              None ∅ 1%positive in
  let rendered := mkHistoryState [JsString "initial"] 0 (JsString "initial") in
  let k := Hook.setState JsUndefined js_nullish rendered
             (Hook.NewValue (JsString "late")) k0 in
  Hook.timeouts k = {[1%positive := JsString "late"]}
  /\ Hook.timeouts (Hook.unmount k) = ∅
  /\ Hook.timeout_fires JsUndefined 1%positive (Hook.unmount k)
     = Hook.unmount k.
Proof.
  intros k0 rendered k.
  destruct (unmount_cancels_pending_write JsUndefined js_nullish
              (JsString "initial")
              (StateHistoryOptions.mk None (Some 100) None) k)
    as (Hnone & _ & _ & Hfire).
  - exists k0, [Hook.SetStateCalled rendered (Hook.NewValue (JsString "late"))].
    split; reflexivity.
  - split; [reflexivity|]. split; [exact Hnone|apply Hfire].
Defined.
